(** * Snowflake to Ellie transfer: a shallow embedding of
      [ellie/snowflake.py] and [ellie/ellie.py]

    The catalog client is an explicit [connection] value (the module's global
    [snowflake_connection]); Python exceptions are the [Raise] results of a
    small error monad; [uuid.uuid4] is an explicit supply of identifiers;
    the insertion-ordered dictionaries [grouped_rows] and [entity_ids] are
    association lists in insertion order; the rows returned by a
    [DictCursor] are finite maps from column names to values, which are
    strings (SQL NULL and other non-string values are left out). The catalog
    does not change during a run: the answer of the client is a function of
    the query. *)

From Stdlib Require Import String Ascii ZArith List Bool.
From stdpp Require Import base option list strings gmap fin_maps.

Local Open Scope string_scope.
Local Open Scope list_scope.

(** ** Exceptions and results *)

Inductive db_failure := Connectivity | Authentication | CatalogAccess.

Inductive exn :=
| DatabaseError (f : db_failure)
| KeyError (key : string)
| TypeError.

Inductive result (A : Type) :=
| Ok (a : A)
| Raise (e : exn).
Arguments Ok {A} a.
Arguments Raise {A} e.

Definition rbind {A B} (r : result A) (k : A -> result B) : result B :=
  match r with
  | Ok a => k a
  | Raise e => Raise e
  end.

Notation "x <- r ;; k" := (rbind r (fun x => k))
  (at level 100, r at next level, right associativity).

Fixpoint rmapM {A B} (f : A -> result B) (l : list A) : result (list B) :=
  match l with
  | [] => Ok []
  | a :: l' => b <- f a ;; bs <- rmapM f l' ;; Ok (b :: bs)
  end.

(** ** Python dictionaries *)

(** A row of a [DictCursor]: column name to value. *)
Abbreviation dict_row := (gmap string string).

(** [row[key]] *)
Definition getitem (row : dict_row) (key : string) : result string :=
  match row !! key with
  | Some v => Ok v
  | None => Raise (KeyError key)
  end.

(** [row.get(key, dflt)] *)
Definition dict_get_default (row : dict_row) (key dflt : string) : string :=
  default dflt (row !! key).

(** Insertion-ordered dictionaries with string keys. *)
Definition odict (V : Type) := list (string * V).

Definition odict_keys {V} (d : odict V) : list string := d.*1.

(** [key in d] *)
Definition odict_mem {V} (key : string) (d : odict V) : bool :=
  bool_decide (key ∈ odict_keys d).

(** [d[key]] as an option *)
Fixpoint odict_lookup {V} (key : string) (d : odict V) : option V :=
  match d with
  | [] => None
  | (k, v) :: d' => if decide (k = key) then Some v else odict_lookup key d'
  end.

(** [d[key] = f(d[key])] for a key that is present; no change otherwise *)
Fixpoint odict_alter {V} (f : V -> V) (key : string) (d : odict V) : odict V :=
  match d with
  | [] => []
  | (k, v) :: d' =>
      if decide (k = key) then (k, f v) :: d' else (k, v) :: odict_alter f key d'
  end.

(** [d[key] = v]: replaces in place, or appends a new key at the end *)
Fixpoint odict_set {V} (key : string) (v : V) (d : odict V) : odict V :=
  match d with
  | [] => [(key, v)]
  | (k, w) :: d' =>
      if decide (k = key) then (k, v) :: d' else (k, w) :: odict_set key v d'
  end.

(** ** Strings *)

(** [str.upper] on ASCII letters (other bytes are left as they are). *)
Definition upper_ascii (c : ascii) : ascii :=
  let n := nat_of_ascii c in
  if (97 <=? n)%nat && (n <=? 122)%nat then ascii_of_nat (n - 32) else c.

Fixpoint upper (s : string) : string :=
  match s with
  | EmptyString => EmptyString
  | String c s' => String (upper_ascii c) (upper s')
  end.

(** ** The catalog client *)

Inductive query :=
| SelectTables (schema_name : string) (include_views : bool)
| ShowTables (schema_name : string)
| SelectReferentialConstraints (schema_name : string)
| SelectTableConstraints (schema_name : string)
| ShowImportedKeys (schema_name : string)
| SelectKeyColumnUsage (schema_name : string)
| ShowPrimaryKeys (schema_name : string)
| SelectColumns (schema_name : string).

(** A row of the default (tuple) cursor for the column catalog query:
    [(TABLE_SCHEMA, TABLE_NAME, COLUMN_NAME, DATA_TYPE)]. *)
Record column_row := {
  col_TABLE_SCHEMA : string;
  col_TABLE_NAME : string;
  col_COLUMN_NAME : string;
  col_DATA_TYPE : string
}.

(** [snowflake_connection]: [cursor] is the outcome of
    [snowflake_connection.cursor(...)]; [execute q] the outcome of
    [cur.execute(q); cur.fetchall()] on a [DictCursor]; [execute_tuples q]
    the same on the default cursor. *)
Record connection := {
  cursor : result unit;
  execute : query -> result (list dict_row);
  execute_tuples : query -> result (list column_row)
}.

(** ** [_get_tables_and_views] *)

Definition is_base_table (t : dict_row) : bool :=
  bool_decide (upper (dict_get_default t "kind" "") = "TABLE").

Definition _get_tables_and_views (conn : connection) (schema_name : string)
    (include_views : bool) : result (list dict_row) :=
  _ <- cursor conn ;;
  match execute conn (SelectTables schema_name include_views) with
  | Raise _ => Ok []
  | Ok tables =>
      match tables with
      | _ :: _ => Ok tables
      | [] =>
          match execute conn (ShowTables schema_name) with
          | Raise _ => Ok tables
          | Ok all_tables =>
              if include_views then Ok all_tables
              else Ok (List.filter is_base_table all_tables)
          end
      end
  end.

(** ** [_get_foreign_keys] *)

Definition methods (schema_name : string) : list query :=
  [ SelectReferentialConstraints schema_name;
    SelectTableConstraints schema_name;
    ShowImportedKeys schema_name ].

(** The dictionary built for a row of [SHOW IMPORTED KEYS]. *)
Definition remap_imported_key (row : dict_row) : dict_row :=
  let get2 k1 k2 := dict_get_default row k1 (dict_get_default row k2 "") in
  <["fk_schema_name" := get2 "FK_DATABASE_NAME" "fk_schema_name"]>
  (<["fk_table_name" := get2 "FK_TABLE_NAME" "fk_table_name"]>
  (<["fk_column_name" := get2 "FK_COLUMN_NAME" "fk_column_name"]>
  (<["pk_schema_name" := get2 "PK_DATABASE_NAME" "pk_schema_name"]>
  (<["pk_table_name" := get2 "PK_TABLE_NAME" "pk_table_name"]>
  (<["pk_column_name" := get2 "PK_COLUMN_NAME" "pk_column_name"]> ∅))))).

(** The loop [for i, query in enumerate(methods)], from index [i] on. The
    first component lists the indices [i] of the methods that were tried
    (the lines "Trying foreign key query method i+1..."), the second is the
    final value of [foreign_keys]. *)
Fixpoint try_methods (conn : connection) (i : nat) (qs : list query)
    : list nat * list dict_row :=
  match qs with
  | [] => ([], [])
  | q :: qs' =>
      match (_ <- cursor conn ;; execute conn q) with
      | Ok (r :: results) =>
          ([i], if Nat.eqb i 2 then map remap_imported_key (r :: results)
                else r :: results)
      | Ok [] | Raise _ =>
          let '(tried, foreign_keys) := try_methods conn (S i) qs' in
          (i :: tried, foreign_keys)
      end
  end.

Definition _get_foreign_keys_traced (conn : connection) (schema_name : string)
    : list nat * list dict_row :=
  try_methods conn 0 (methods schema_name).

Definition _get_foreign_keys (conn : connection) (schema_name : string)
    : list dict_row :=
  snd (_get_foreign_keys_traced conn schema_name).

(** ** [_query_schema_data] *)

(** The keys of the dictionary [primary_keys] (every value is [True]). *)
Abbreviation pk_set := (gset (string * string * string)).

(** Method 1: the loop over the rows of [KEY_COLUMN_USAGE]. A row without
    one of the three columns raises [KeyError], which leaves the loop with
    the keys collected so far. *)
Fixpoint pk_key_column_usage (rows : list dict_row) (primary_keys : pk_set)
    : pk_set :=
  match rows with
  | [] => primary_keys
  | row :: rows' =>
      match row !! "TABLE_SCHEMA", row !! "TABLE_NAME", row !! "COLUMN_NAME" with
      | Some s, Some t, Some c =>
          pk_key_column_usage rows' ({[ (s, t, c) ]} ∪ primary_keys)
      | _, _, _ => primary_keys
      end
  end.

(** Method 2: the loop over the rows of [SHOW PRIMARY KEYS]. *)
Definition pk_show_primary_keys (rows : list dict_row) (primary_keys : pk_set)
    : pk_set :=
  fold_left
    (fun pks row =>
       {[ (dict_get_default row "schema_name" "",
           dict_get_default row "table_name" "",
           dict_get_default row "column_name" "") ]} ∪ pks)
    rows primary_keys.

Definition query_primary_keys (conn : connection) (schema_name : string)
    : pk_set :=
  match cursor conn with
  | Raise _ => ∅
  | Ok _ =>
      let primary_keys :=
        match execute conn (SelectKeyColumnUsage schema_name) with
        | Ok rows => pk_key_column_usage rows ∅
        | Raise _ => ∅
        end in
      if decide (primary_keys = ∅) then
        match execute conn (ShowPrimaryKeys schema_name) with
        | Ok rows => pk_show_primary_keys rows primary_keys
        | Raise _ => primary_keys
        end
      else primary_keys
  end.

(** A row of the result:
    [[table_schema, table_name, column_name, is_pk, data_type]]. *)
Record result_row := {
  row_table_schema : string;
  row_table_name : string;
  row_column_name : string;
  row_is_pk : bool;
  row_data_type : string
}.

Definition tag_primary_key (primary_keys : pk_set) (row : column_row)
    : result_row :=
  {| row_table_schema := col_TABLE_SCHEMA row;
     row_table_name := col_TABLE_NAME row;
     row_column_name := col_COLUMN_NAME row;
     row_is_pk :=
       bool_decide
         ((col_TABLE_SCHEMA row, col_TABLE_NAME row, col_COLUMN_NAME row)
            ∈ primary_keys);
     row_data_type := col_DATA_TYPE row |}.

Definition _query_schema_data (conn : connection) (schema_name : string)
    : result (list result_row) :=
  let primary_keys := query_primary_keys conn schema_name in
  _ <- cursor conn ;;
  rows <- execute_tuples conn (SelectColumns schema_name) ;;
  Ok (map (tag_primary_key primary_keys) rows).

(** ** The model document *)

Record attribute := {
  attr_name : string;
  attr_PK : bool;
  attr_FK : bool;
  attr_DATA_TYPE : string
}.

Record entity := {
  ent_id : string;
  ent_name : string;
  ent_attributes : list attribute
}.

Record source_entity := {
  src_id : string;
  src_name : string;
  startType : string;
  src_attributeNames : list string
}.

Record target_entity := {
  tgt_id : string;
  tgt_name : string;
  endType : string;
  tgt_attributeNames : list string
}.

Record relationship := {
  sourceEntity : source_entity;
  targetEntity : target_entity;
  description : list string
}.

Record model := {
  level : string;
  entities : list entity;
  relationships : list relationship
}.

(** ** [snowflake_export] *)

(** The local variables of [snowflake_export] that live across the loop
    over the schemas; [uuid_count] counts the calls of [uuid.uuid4]. *)
Record export_state := {
  grouped_rows : odict (list attribute);
  entity_ids : odict string;
  rels : list relationship;
  uuid_count : nat
}.

Definition initial_state : export_state :=
  {| grouped_rows := []; entity_ids := []; rels := []; uuid_count := 0 |}.

(** The dictionary [attribute] built for a row of [schema_data]. *)
Definition make_attribute (row : result_row) : attribute :=
  {| attr_name := row_column_name row;
     attr_PK := row_is_pk row;
     attr_FK := false;
     attr_DATA_TYPE := row_data_type row |}.

(** One iteration of [for row in schema_data]. *)
Definition add_column (uuid4 : nat -> string) (tables : list string)
    (st : export_state) (row : result_row) : export_state :=
  let table_name := row_table_name row in
  if bool_decide (table_name ∉ tables) then st
  else
    let attribute := make_attribute row in
    let st1 :=
      if negb (odict_mem table_name (grouped_rows st)) then
        {| grouped_rows := odict_set table_name [] (grouped_rows st);
           entity_ids :=
             odict_set table_name (uuid4 (uuid_count st)) (entity_ids st);
           rels := rels st;
           uuid_count := S (uuid_count st) |}
      else st in
    {| grouped_rows :=
         odict_alter (fun attrs => attrs ++ [attribute]) table_name
           (grouped_rows st1);
       entity_ids := entity_ids st1;
       rels := rels st1;
       uuid_count := uuid_count st1 |}.

(** [if attr["name"] == fk_column: attr["metadata"]["FK"] = True] *)
Definition set_fk (attr : attribute) : attribute :=
  {| attr_name := attr_name attr;
     attr_PK := attr_PK attr;
     attr_FK := true;
     attr_DATA_TYPE := attr_DATA_TYPE attr |}.

Definition mark_fk (fk_column : string) (attr : attribute) : attribute :=
  if decide (attr_name attr = fk_column) then set_fk attr else attr.

Definition make_relationship (pk_id pk_table pk_column
    fk_id fk_table fk_column : string) : relationship :=
  {| sourceEntity :=
       {| src_id := pk_id; src_name := pk_table; startType := "one";
          src_attributeNames := [pk_column] |};
     targetEntity :=
       {| tgt_id := fk_id; tgt_name := fk_table; endType := "many";
          tgt_attributeNames := [fk_column] |};
     description := [] |}.

(** The six fields read from a raw foreign-key row at the top of the [try]
    block; [None] when one of them is missing ([KeyError]). *)
Record fk_fields := {
  fk_schema : string;
  fk_table : string;
  fk_column : string;
  pk_schema : string;
  pk_table : string;
  pk_column : string
}.

Definition read_fk (fk : dict_row) : option fk_fields :=
  match fk !! "fk_schema_name", fk !! "fk_table_name", fk !! "fk_column_name",
        fk !! "pk_schema_name", fk !! "pk_table_name", fk !! "pk_column_name"
  with
  | Some fs, Some ft, Some fc, Some ps, Some pt, Some pc =>
      Some {| fk_schema := fs; fk_table := ft; fk_column := fc;
              pk_schema := ps; pk_table := pt; pk_column := pc |}
  | _, _, _, _, _, _ => None
  end.

(** One iteration of [for fk in foreign_keys]. *)
Definition process_fk (tables : list string) (st : export_state)
    (fk : dict_row) : export_state :=
  match read_fk fk with
  | None => st
  | Some f =>
      if bool_decide (fk_table f ∉ tables) || bool_decide (pk_table f ∉ tables)
      then st
      else
        let grouped :=
          if odict_mem (fk_table f) (grouped_rows st) then
            odict_alter (map (mark_fk (fk_column f))) (fk_table f)
              (grouped_rows st)
          else grouped_rows st in
        let relationships :=
          match odict_lookup (pk_table f) (entity_ids st),
                odict_lookup (fk_table f) (entity_ids st) with
          | Some pk_id, Some fk_id =>
              if odict_mem (pk_table f) grouped && odict_mem (fk_table f) grouped
              then rels st ++
                   [make_relationship pk_id (pk_table f) (pk_column f)
                      fk_id (fk_table f) (fk_column f)]
              else rels st
          | _, _ => rels st
          end in
        {| grouped_rows := grouped;
           entity_ids := entity_ids st;
           rels := relationships;
           uuid_count := uuid_count st |}
  end.

(** The body of [for schema in schemas] after the table listing has been
    found non-empty. *)
Definition export_schema (conn : connection) (uuid4 : nat -> string)
    (schema : string) (table_types : list dict_row) (st : export_state)
    : result export_state :=
  tables <- rmapM (fun row => getitem row "TABLE_NAME") table_types ;;
  let foreign_keys := _get_foreign_keys conn schema in
  schema_data <- _query_schema_data conn schema ;;
  let st1 := fold_left (add_column uuid4 tables) schema_data st in
  Ok (fold_left (process_fk tables) foreign_keys st1).

Fixpoint export_schemas (conn : connection) (uuid4 : nat -> string)
    (include_views : bool) (schemas : list string) (st : export_state)
    : result export_state :=
  match schemas with
  | [] => Ok st
  | schema :: schemas' =>
      table_types <- _get_tables_and_views conn schema include_views ;;
      match table_types with
      | [] => export_schemas conn uuid4 include_views schemas' st
      | _ :: _ =>
          st' <- export_schema conn uuid4 schema table_types st ;;
          export_schemas conn uuid4 include_views schemas' st'
      end
  end.

(** [entities = [{...} for name in grouped_rows.keys()]] *)
Definition make_entities (st : export_state) : result (list entity) :=
  rmapM
    (fun '(name, attrs) =>
       match odict_lookup name (entity_ids st) with
       | Some i => Ok {| ent_id := i; ent_name := name; ent_attributes := attrs |}
       | None => Raise (KeyError name)
       end)
    (grouped_rows st).

Definition snowflake_export (conn : connection) (uuid4 : nat -> string)
    (schemas : list string) (include_views : bool) : result model :=
  st <- export_schemas conn uuid4 include_views schemas initial_state ;;
  entities <- make_entities st ;;
  Ok {| level := "conceptual";
        entities := entities;
        relationships := rels st |}.

(** ** [ellie_model_import]

    The model document is a Python object that the caller and
    [ellie_model_import] share, so it lives in a store of dictionaries; a
    dictionary value is a string, an integer, one of the two lists of the
    document, or a reference to another dictionary. *)

Abbreviation loc := positive.

Inductive pyval :=
| PStr (s : string)
| PInt (z : Z)
| PEntities (es : list entity)
| PRelationships (rs : list relationship)
| PRef (l : loc).

Abbreviation pydict := (gmap string pyval).
Abbreviation heap := (gmap loc pydict).

(** [obj[k1][k2] = v] for a reference [obj] to a dictionary *)
Definition setitem2 (h : heap) (obj : loc) (k1 k2 : string) (v : pyval)
    : result heap :=
  match h !! obj with
  | None => Raise TypeError
  | Some outer =>
      match outer !! k1 with
      | None => Raise (KeyError k1)
      | Some (PRef l) =>
          match h !! l with
          | Some inner => Ok (<[l := <[k2 := v]> inner]> h)
          | None => Raise TypeError
          end
      | Some _ => Raise TypeError
      end
  end.

(** The f-string that builds the URL from the global [ellie_settings]
    ([None] before [ellie_connect]). *)
Definition models_url (ellie_settings : option (gmap string string))
    : result string :=
  match ellie_settings with
  | None => Raise TypeError
  | Some settings =>
      organization <- getitem settings "organization" ;;
      api_version <- getitem settings "api_version" ;;
      token <- getitem settings "token" ;;
      Ok (organization +:+ "/api/" +:+ api_version +:+ "/models?token="
            +:+ token)
  end.

Record response := {
  status_code : Z;
  text : string
}.

(** [post url obj h] stands for [requests.post(url=url, json=obj)] issued
    when the store is [h]: the body is read from the store at that time. *)
Definition ellie_model_import
    (ellie_settings : option (gmap string string))
    (post : string -> loc -> heap -> result response)
    (name : string) (model : loc) (level : string) (h : heap)
    : heap * result response :=
  match setitem2 h model "model" "name" (PStr name) with
  | Raise e => (h, Raise e)
  | Ok h1 =>
      match setitem2 h1 model "model" "level" (PStr level) with
      | Raise e => (h1, Raise e)
      | Ok h2 => (h2, url <- models_url ellie_settings ;; post url model h2)
      end
  end.

(** The dictionary [{"model": {...}}] that [snowflake_export] returns,
    allocated in the store. *)
Definition dict_of_model (m : model) : pydict :=
  <["level" := PStr (level m)]>
  (<["entities" := PEntities (entities m)]>
  (<["relationships" := PRelationships (relationships m)]> ∅)).

Definition alloc (d : pydict) (h : heap) : loc * heap :=
  let l := fresh (dom h) in (l, <[l := d]> h).

Definition store_model (m : model) (h : heap) : loc * heap :=
  let '(inner, h1) := alloc (dict_of_model m) h in
  alloc (<["model" := PRef inner]> ∅) h1.

(** ** Notions used to state the properties *)

(** The list [tables] that [snowflake_export] computes for a schema (empty
    when the listing is empty or an exception ends the export there). *)
Definition schema_tables (conn : connection) (include_views : bool)
    (schema : string) : list string :=
  match _get_tables_and_views conn schema include_views with
  | Ok table_types =>
      match rmapM (fun row => getitem row "TABLE_NAME") table_types with
      | Ok tables => tables
      | Raise _ => []
      end
  | Raise _ => []
  end.

(** The rows [schema_data] of a schema. *)
Definition schema_rows (conn : connection) (schema : string)
    : list result_row :=
  match _query_schema_data conn schema with
  | Ok rows => rows
  | Raise _ => []
  end.

(** A table name is in the scope of a schema, and has a column there. *)
Definition in_scope (conn : connection) (include_views : bool)
    (schema name : string) : Prop :=
  name ∈ schema_tables conn include_views schema.

Definition has_column (conn : connection) (schema name : string) : Prop :=
  ∃ row, row ∈ schema_rows conn schema ∧ row_table_name row = name.

Definition entity_names (doc : model) : list string :=
  map ent_name (entities doc).

(** The column record behind an attribute: name, primary-key flag and data
    type (the FK flag is not part of the catalog's record). *)
Definition column_record (a : attribute) : string * bool * string :=
  (attr_name a, attr_PK a, attr_DATA_TYPE a).

Definition row_record (row : result_row) : string * bool * string :=
  (row_column_name row, row_is_pk row, row_data_type row).

(** The column records of table [name] that one schema contributes. *)
Definition table_columns (conn : connection) (include_views : bool)
    (name schema : string) : list (string * bool * string) :=
  if bool_decide (name ∈ schema_tables conn include_views schema) then
    map row_record
      (List.filter (fun row => bool_decide (row_table_name row = name))
         (schema_rows conn schema))
  else [].

(** A foreign-key edge: (referencing table, referencing column,
    referenced table, referenced column). *)
Definition edge : Type := string * string * string * string.

Definition raw_edge (fk : dict_row) : option edge :=
  match read_fk fk with
  | Some f => Some (fk_table f, fk_column f, pk_table f, pk_column f)
  | None => None
  end.

Definition relationship_edge (r : relationship)
    : string * list string * string * list string :=
  (tgt_name (targetEntity r), tgt_attributeNames (targetEntity r),
   src_name (sourceEntity r), src_attributeNames (sourceEntity r)).

Definition has_edge (e : edge) (r : relationship) : bool :=
  let '(ft, fc, pt, pc) := e in
  bool_decide (relationship_edge r = (ft, [fc], pt, [pc])).

Definition count_relationships (e : edge) (rs : list relationship) : nat :=
  length (List.filter (has_edge e) rs).

Definition count_raw_rows (e : edge) (fks : list dict_row) : nat :=
  length (List.filter (fun fk => bool_decide (raw_edge fk = Some e)) fks).

(** An attribute name exists in the entity of the given name. *)
Definition attribute_exists (doc : model) (ent a : string) : Prop :=
  ∃ e, e ∈ entities doc ∧ ent_name e = ent ∧
       a ∈ map attr_name (ent_attributes e).

Definition no_dangling_attributes (doc : model) : Prop :=
  ∀ r, r ∈ relationships doc →
    (∀ a, a ∈ src_attributeNames (sourceEntity r) →
          attribute_exists doc (src_name (sourceEntity r)) a) ∧
    (∀ a, a ∈ tgt_attributeNames (targetEntity r) →
          attribute_exists doc (tgt_name (targetEntity r)) a).

(** An entity reference resolves to an entity of the document. *)
Definition entity_resolves (doc : model) (i name : string) : Prop :=
  ∃ e, e ∈ entities doc ∧ ent_name e = name ∧ ent_id e = i.

(** Forgetting the generated identifiers of a document. *)
Definition erase_entity (e : entity) : entity :=
  {| ent_id := ""; ent_name := ent_name e;
     ent_attributes := ent_attributes e |}.

Definition erase_relationship (r : relationship) : relationship :=
  {| sourceEntity :=
       {| src_id := ""; src_name := src_name (sourceEntity r);
          startType := startType (sourceEntity r);
          src_attributeNames := src_attributeNames (sourceEntity r) |};
     targetEntity :=
       {| tgt_id := ""; tgt_name := tgt_name (targetEntity r);
          endType := endType (targetEntity r);
          tgt_attributeNames := tgt_attributeNames (targetEntity r) |};
     description := description r |}.

Definition erase_ids (doc : model) : model :=
  {| level := level doc;
     entities := map erase_entity (entities doc);
     relationships := map erase_relationship (relationships doc) |}.

Definition erase_result (r : result model) : result model :=
  match r with
  | Ok doc => Ok (erase_ids doc)
  | Raise e => Raise e
  end.

(** The invariant of the loop over the schemas: both dictionaries have the
    same keys in the same order, no key twice, and no table is grouped with
    an empty attribute list. *)
Definition wf_state (st : export_state) : Prop :=
  odict_keys (grouped_rows st) = odict_keys (entity_ids st) ∧
  NoDup (odict_keys (grouped_rows st)) ∧
  Forall (fun p => p.2 ≠ []) (grouped_rows st).

(** The effect of one iteration of [for schema in schemas] that raises no
    exception: the column loop, then the foreign-key loop. *)
Definition schema_pass (conn : connection) (uuid4 : nat -> string)
    (include_views : bool) (st : export_state) (schema : string)
    : export_state :=
  let tables := schema_tables conn include_views schema in
  fold_left (process_fk tables) (_get_foreign_keys conn schema)
    (fold_left (add_column uuid4 tables) (schema_rows conn schema) st).

(** The attribute list grouped under a table name ([[]] when there is none). *)
Definition attributes_of (name : string) (st : export_state)
    : list attribute :=
  default [] (odict_lookup name (grouped_rows st)).

(** A raw foreign-key row that passes the scope check and names the given
    referencing table and column. *)
Definition fk_row_marks (tables : list string) (name column : string)
    (fk : dict_row) : bool :=
  match read_fk fk with
  | Some f =>
      bool_decide (fk_table f ∈ tables) && bool_decide (pk_table f ∈ tables)
      && bool_decide (fk_table f = name) && bool_decide (fk_column f = column)
  | None => false
  end.

Definition mark_all (tables : list string) (fks : list dict_row)
    (name : string) (a : attribute) : attribute :=
  if existsb (fk_row_marks tables name (attr_name a)) fks then set_fk a else a.

(** The relationship that a raw foreign-key row adds, if any, given the
    keys and identifiers at the start of the foreign-key loop. *)
Definition emitted_relationship (tables : list string) (st : export_state)
    (fk : dict_row) : option relationship :=
  match read_fk fk with
  | Some f =>
      if bool_decide (fk_table f ∈ tables) && bool_decide (pk_table f ∈ tables)
      then
        match odict_lookup (pk_table f) (entity_ids st),
              odict_lookup (fk_table f) (entity_ids st) with
        | Some pk_id, Some fk_id =>
            if odict_mem (pk_table f) (grouped_rows st)
               && odict_mem (fk_table f) (grouped_rows st)
            then Some (make_relationship pk_id (pk_table f) (pk_column f)
                         fk_id (fk_table f) (fk_column f))
            else None
        | _, _ => None
        end
      else None
  | None => None
  end.

(** The entity built for one item of [grouped_rows]. *)
Definition entity_of (ids : odict string) (item : string * list attribute)
    : entity :=
  {| ent_id := default "" (odict_lookup item.1 ids);
     ent_name := item.1;
     ent_attributes := item.2 |}.

(** The document built from the final state of the loop. *)
Definition document_of (st : export_state) : model :=
  {| level := "conceptual";
     entities := map (entity_of (entity_ids st)) (grouped_rows st);
     relationships := rels st |}.

Definition is_ok {A} (r : result A) : Prop := ∃ a, r = Ok a.

(** The catalog queries of a schema raise no exception that escapes
    [snowflake_export]: the listing is fetched, and when it is not empty
    every row of it has a [TABLE_NAME] and the column query succeeds. *)
Definition fetch_succeeds (conn : connection) (include_views : bool)
    (schema : string) : Prop :=
  match _get_tables_and_views conn schema include_views with
  | Ok [] => True
  | Ok table_types =>
      is_ok (rmapM (fun row => getitem row "TABLE_NAME") table_types) ∧
      is_ok (_query_schema_data conn schema)
  | Raise _ => False
  end.

(** What one foreign-key query method yields: its rows, or nothing when it
    returns no row or raises. *)
Definition attempt (conn : connection) (q : query) : list dict_row :=
  match (_ <- cursor conn ;; execute conn q) with
  | Ok rows => rows
  | Raise _ => []
  end.

(** ** Catalogs used as concrete inputs *)

(** A reachable catalog: the standard table listing answers with the names
    [listing schema], the column query with [columns schema], the two
    standard foreign-key queries with no row, [SHOW IMPORTED KEYS] with
    [imported_keys schema], and the primary-key queries with
    [primary_keys schema]. *)
Definition catalog (listing : string -> list string)
    (columns : string -> list column_row)
    (imported_keys : string -> list dict_row)
    (primary_keys : string -> list dict_row) : connection :=
  {| cursor := Ok tt;
     execute := fun q =>
       match q with
       | SelectTables schema _ =>
           Ok (map (fun name => {[ "TABLE_NAME" := name ]}) (listing schema))
       | ShowImportedKeys schema => Ok (imported_keys schema)
       | SelectKeyColumnUsage schema => Ok (primary_keys schema)
       | _ => Ok []
       end;
     execute_tuples := fun q =>
       match q with
       | SelectColumns schema => Ok (columns schema)
       | _ => Ok []
       end |}.

Definition column (schema table name data_type : string) : column_row :=
  {| col_TABLE_SCHEMA := schema; col_TABLE_NAME := table;
     col_COLUMN_NAME := name; col_DATA_TYPE := data_type |}.

(** A row of [SHOW IMPORTED KEYS] with the upper-case column names. *)
Definition imported_key (fk_table fk_column pk_table pk_column : string)
    : dict_row :=
  <["FK_TABLE_NAME" := fk_table]>
  (<["FK_COLUMN_NAME" := fk_column]>
  (<["PK_TABLE_NAME" := pk_table]>
  (<["PK_COLUMN_NAME" := pk_column]> ∅))).

Definition primary_key (schema table name : string) : dict_row :=
  <["TABLE_SCHEMA" := schema]>
  (<["TABLE_NAME" := table]>
  (<["COLUMN_NAME" := name]> ∅)).

Definition shop_columns : list column_row :=
  [ column "PUBLIC" "CUSTOMERS" "id" "NUMBER";
    column "PUBLIC" "ORDERS" "id" "NUMBER";
    column "PUBLIC" "ORDERS" "customer_id" "NUMBER" ].

Definition shop_primary_keys : list dict_row :=
  [ primary_key "PUBLIC" "CUSTOMERS" "id";
    primary_key "PUBLIC" "ORDERS" "id" ].

(** [ORDERS(id PK, customer_id FK)], [CUSTOMERS(id PK)] and a table
    [ORPHAN] whose columns the catalog does not show; the only foreign key
    comes from [SHOW IMPORTED KEYS]. *)
Definition shop : connection :=
  catalog (fun _ => ["ORDERS"; "CUSTOMERS"; "ORPHAN"])
    (fun _ => shop_columns)
    (fun _ => [imported_key "ORDERS" "customer_id" "CUSTOMERS" "id"])
    (fun _ => shop_primary_keys).

(** The same foreign key reported three times. *)
Definition shop_repeated : connection :=
  catalog (fun _ => ["ORDERS"; "CUSTOMERS"])
    (fun _ => shop_columns)
    (fun _ => [imported_key "ORDERS" "customer_id" "CUSTOMERS" "id";
               imported_key "ORDERS" "customer_id" "CUSTOMERS" "id";
               imported_key "ORDERS" "customer_id" "CUSTOMERS" "id"])
    (fun _ => shop_primary_keys).

(** The foreign key references a column that the column catalog does not
    list. *)
Definition shop_unlisted_column : connection :=
  catalog (fun _ => ["ORDERS"; "CUSTOMERS"])
    (fun _ => shop_columns)
    (fun _ => [imported_key "ORDERS" "customer_id" "CUSTOMERS" "customer_key"])
    (fun _ => shop_primary_keys).

(** [CUSTOMERS] is listed but none of its columns is. *)
Definition shop_hidden_customers : connection :=
  catalog (fun _ => ["ORDERS"; "CUSTOMERS"])
    (fun _ => [ column "PUBLIC" "ORDERS" "id" "NUMBER";
                column "PUBLIC" "ORDERS" "customer_id" "NUMBER" ])
    (fun _ => [imported_key "ORDERS" "customer_id" "CUSTOMERS" "id"])
    (fun _ => shop_primary_keys).

(** Two schemas with a table of the same name. *)
Definition two_schemas : connection :=
  catalog (fun _ => ["USERS"])
    (fun schema =>
       if decide (schema = "SALES") then
         [ column "SALES" "USERS" "id" "NUMBER";
           column "SALES" "USERS" "region" "TEXT" ]
       else [ column "HR" "USERS" "badge" "NUMBER" ])
    (fun _ => [])
    (fun _ => []).

(** The connection is lost: every query raises a connectivity error. *)
Definition unreachable : connection :=
  {| cursor := Ok tt;
     execute := fun _ => Raise (DatabaseError Connectivity);
     execute_tuples := fun _ => Raise (DatabaseError Connectivity) |}.

(** Two supplies of identifiers. *)
Definition numbered (n : nat) : string :=
  String (ascii_of_nat (48 + n)) EmptyString.

Definition lettered (n : nat) : string :=
  String (ascii_of_nat (97 + n)) EmptyString.

(** The canonical row that [_get_foreign_keys] builds for an upper-case row
    of [SHOW IMPORTED KEYS]. *)
Definition imported_key_row (fk_table fk_column pk_table pk_column : string)
    : dict_row :=
  remap_imported_key (imported_key fk_table fk_column pk_table pk_column).

(** Forgetting the identifiers held in the state of the loop. *)
Definition erase_values (ids : odict string) : odict string :=
  map (fun item => (item.1, "")) ids.

Definition erase_state (st : export_state) : export_state :=
  {| grouped_rows := grouped_rows st;
     entity_ids := erase_values (entity_ids st);
     rels := map erase_relationship (rels st);
     uuid_count := uuid_count st |}.

Definition result_map {A B} (f : A -> B) (r : result A) : result B :=
  match r with
  | Ok a => Ok (f a)
  | Raise e => Raise e
  end.

(** The supply that returns the empty identifier at every call. *)
Definition no_uuid (n : nat) : string := "".

(** The document of the shop catalog, stored as [snowflake_export] returns
    it and given a [folderId] by the caller; the settings of a connected
    client; an API that accepts every request. *)
Definition shop_document : model :=
  document_of (schema_pass shop numbered true initial_state "PUBLIC").

Definition shop_store : loc * heap :=
  let '(model, h) := store_model shop_document ∅ in
  match setitem2 h model "model" "folderId" (PInt 42) with
  | Ok h' => (model, h')
  | Raise _ => (model, h)
  end.

Definition connected_settings : gmap string string :=
  <["organization" := "https://example.ellie.ai"]>
  (<["api_version" := "v1"]>
  (<["token" := "secret"]> ∅)).

Definition accepting_api (url : string) (model : loc) (h : heap)
    : result response :=
  Ok {| status_code := 200; text := "" |}.


(** ** [extract_account_from_url]

    [re.match] of
    [https?://([^\.]+\.[^\.]+\.[^\.]+)\.snowflakecomputing\.com] at the
    start of the string. The matcher below goes left to right without
    backtracking, which loses no match: a group [[^\.]+] is followed by a
    literal dot, so it can only end at the first dot; and after ["http"] an
    ["s"] left unconsumed cannot start ["://"]. The strings are the UTF-8
    bytes of the text; the byte of the dot occurs in no multi-byte
    sequence. *)

Definition dot : ascii := "."%char.

(** [s] without its prefix [lit]; [None] when [s] does not start with it *)
Fixpoint strip_prefix (lit s : string) : option string :=
  match lit, s with
  | EmptyString, _ => Some s
  | String a lit', String b s' =>
      if decide (a = b) then strip_prefix lit' s' else None
  | String _ _, EmptyString => None
  end.

(** The longest prefix of [s] without a dot, and the rest of [s] *)
Fixpoint span_no_dot (s : string) : string * string :=
  match s with
  | EmptyString => (EmptyString, EmptyString)
  | String c s' =>
      if decide (c = dot) then (EmptyString, s)
      else let '(seg, rest) := span_no_dot s' in (String c seg, rest)
  end.

(** [[^\.]+] *)
Definition segment (s : string) : option (string * string) :=
  match span_no_dot s with
  | (EmptyString, _) => None
  | (seg, rest) => Some (seg, rest)
  end.

(** [match.group(1)], when the pattern matches *)
Definition match_account_url (url : string) : option string :=
  s ← strip_prefix "http" url;
  s ← strip_prefix "://" (default s (strip_prefix "s" s));
  '(a, s) ← segment s;
  s ← strip_prefix "." s;
  '(b, s) ← segment s;
  s ← strip_prefix "." s;
  '(c, s) ← segment s;
  _ ← strip_prefix ".snowflakecomputing.com" s;
  Some (a +:+ "." +:+ b +:+ "." +:+ c).

Definition extract_account_from_url (url : string) : string :=
  match match_account_url url with
  | Some account => account
  | None => url
  end.

(** ** [snowflake_connect] and the application's [connect_to_snowflake] *)

(** The keyword arguments of [snowflake.connector.connect]; [None] for an
    argument that the call does not pass. *)
Record connect_arguments := {
  arg_user : string;
  arg_password : string;
  arg_account : string;
  arg_warehouse : string;
  arg_database : string;
  arg_schema : option string;
  arg_role : option string
}.

(** [settings.get(key)] used as a condition *)
Definition truthy (v : option string) : bool :=
  match v with
  | Some s => negb (bool_decide (s = ""))
  | None => false
  end.

Definition uses_privatelink (settings : gmap string string) : bool :=
  bool_decide (settings !! "connection_mode" = Some "privatelink")
  && truthy (settings !! "custom_url").

(** The arguments with which [snowflake_connect] calls the connector. *)
Definition snowflake_connect_arguments (settings : gmap string string)
    : result connect_arguments :=
  account_param <-
    (if uses_privatelink settings then getitem settings "custom_url"
     else account <- getitem settings "account" ;;
          Ok (extract_account_from_url account)) ;;
  user <- getitem settings "user" ;;
  password <- getitem settings "password" ;;
  warehouse <- getitem settings "warehouse" ;;
  database <- getitem settings "database" ;;
  Ok {| arg_user := user; arg_password := password;
        arg_account := account_param; arg_warehouse := warehouse;
        arg_database := database;
        arg_schema := Some "INFORMATION_SCHEMA"; arg_role := None |}.

(** [connect] stands for [snowflake.connector.connect]; the third argument
    and the first result are the global [snowflake_connection] before and
    after the call. *)
Definition snowflake_connect
    (connect : connect_arguments -> result connection)
    (settings : gmap string string)
    (snowflake_connection : option connection)
    : option connection * result unit :=
  match (args <- snowflake_connect_arguments settings ;; connect args) with
  | Ok conn => (Some conn, Ok tt)
  | Raise e => (snowflake_connection, Raise e)
  end.

(** The arguments with which [connect_to_snowflake] calls the connector. *)
Definition connect_to_snowflake_arguments (settings : gmap string string)
    : result connect_arguments :=
  account_param <-
    (if uses_privatelink settings then getitem settings "custom_url"
     else account <- getitem settings "account" ;;
          Ok (extract_account_from_url account)) ;;
  user <- getitem settings "user" ;;
  password <- getitem settings "password" ;;
  warehouse <- getitem settings "warehouse" ;;
  database <- getitem settings "database" ;;
  role <- getitem settings "role" ;;
  Ok {| arg_user := user; arg_password := password;
        arg_account := account_param; arg_warehouse := warehouse;
        arg_database := database;
        arg_schema := None; arg_role := Some role |}.

(** [None] is the [None] that the function returns after any exception. *)
Definition connect_to_snowflake
    (connect : connect_arguments -> result connection)
    (settings : gmap string string) : option connection :=
  match (args <- connect_to_snowflake_arguments settings ;; connect args) with
  | Ok conn => Some conn
  | Raise _ => None
  end.

(** ** [ellie_connect]

    The settings are a dictionary that the caller and the module share: the
    global [ellie_settings] is a reference to the caller's dictionary. *)

Abbreviation settings_store := (gmap loc (gmap string string)).

(** The result is the store and the global [ellie_settings] after the
    call. *)
Definition ellie_connect (settings : loc) (store : settings_store)
    : result (settings_store * option loc) :=
  match store !! settings with
  | None => Raise TypeError
  | Some d =>
      let store' :=
        match d !! "api_version" with
        | None => <[settings := <["api_version" := "v1"]> d]> store
        | Some _ => store
        end in
      Ok (store', Some settings)
  end.

(** The dictionary that the global [ellie_settings] refers to. *)
Definition current_settings (ellie_settings : option loc)
    (store : settings_store) : option (gmap string string) :=
  l ← ellie_settings; store !! l.

(** ** The application: the organization URL and the transfer *)

(** [str.startswith] *)
Fixpoint startswith (s lit : string) : bool :=
  match lit, s with
  | EmptyString, _ => true
  | String a lit', String b s' => bool_decide (a = b) && startswith s' lit'
  | String _ _, EmptyString => false
  end.

(** The value of the organization after
    [if org and not org.startswith(('http://', 'https://')): org = 'https://' + org] *)
Definition needs_scheme (organization : string) : bool :=
  negb (bool_decide (organization = ""))
  && negb (startswith organization "http://"
           || startswith organization "https://").

Definition ensure_scheme (organization : string) : string :=
  if needs_scheme organization then "https://" +:+ organization
  else organization.

(** [len(data['model'].get(key, []))] for the two lists of the document *)
Definition count_of (h : heap) (data : loc) (key : string) : result nat :=
  match h !! data with
  | None => Raise TypeError
  | Some outer =>
      match outer !! "model" with
      | None => Raise (KeyError "model")
      | Some (PRef l) =>
          match h !! l with
          | None => Raise TypeError
          | Some inner =>
              match inner !! key with
              | None => Ok 0
              | Some (PEntities es) => Ok (length es)
              | Some (PRelationships rs) => Ok (length rs)
              | Some (PStr s) => Ok (String.length s)
              | Some (PInt _) | Some (PRef _) => Raise TypeError
              end
          end
      | Some _ => Raise TypeError
      end
  end.

(** The state that the transfer shares with the rest of the application:
    the settings dictionaries and the global [ellie_settings]. *)
Record ellie_state := {
  settings_of : settings_store;
  ellie_settings_ref : option loc
}.

(** The first statement of the [try] block: the organization gets its
    scheme, and the client is connected again, when it had none. *)
Definition reconnect_with_scheme (ellie_config : loc) (es : ellie_state)
    : ellie_state * result unit :=
  match settings_of es !! ellie_config with
  | None => (es, Raise TypeError)
  | Some config =>
      match getitem config "organization" with
      | Raise e => (es, Raise e)
      | Ok organization =>
          if needs_scheme organization then
            let store1 :=
              <[ellie_config :=
                  <["organization" := "https://" +:+ organization]> config]>
                (settings_of es) in
            match ellie_connect ellie_config store1 with
            | Ok (store2, global) =>
                ({| settings_of := store2; ellie_settings_ref := global |},
                 Ok tt)
            | Raise e =>
                ({| settings_of := store1;
                    ellie_settings_ref := ellie_settings_ref es |},
                 Raise e)
            end
          else (es, Ok tt)
      end
  end.

Inductive transfer_outcome :=
| FolderIdRequired
| FolderIdNotANumber
| TransferFailed (e : exn)
| ModelCreated (entity_count relationship_count : nat) (r : response)
| ModelRejected (r : response).

(** The [try] block under [with st.spinner("Transferring data...")]: the
    schema is exported, [folderId] is set, the document is imported at
    level "physical", and the status code of the response decides. The
    document is allocated in a store of its own. *)
Definition transfer_block (conn : connection) (uuid4 : nat -> string)
    (post : string -> loc -> heap -> result response)
    (ellie_config : loc) (selected_schema model_name : string)
    (folder_id_int : Z) (include_views : bool) (es : ellie_state)
    : ellie_state * result transfer_outcome :=
  let '(es1, connected) := reconnect_with_scheme ellie_config es in
  (es1,
   _ <- connected ;;
   doc <- snowflake_export conn uuid4 [selected_schema] include_views ;;
   let '(data, h) := store_model doc ∅ in
   h1 <- setitem2 h data "model" "folderId" (PInt folder_id_int) ;;
   let '(h2, posted) :=
     ellie_model_import
       (current_settings (ellie_settings_ref es1) (settings_of es1))
       post model_name data "physical" h1 in
   response <- posted ;;
   if bool_decide (200 ≤ status_code response)%Z
      && bool_decide (status_code response < 300)%Z
   then
     entity_count <- count_of h2 data "entities" ;;
     relationship_count <- count_of h2 data "relationships" ;;
     Ok (ModelCreated entity_count relationship_count response)
   else Ok (ModelRejected response)).

(** The handler of the button "Transfer to Ellie"; [int] stands for the
    built-in [int] on the text of the folder identifier ([None] for
    [ValueError]). *)
Definition transfer (int : string -> option Z)
    (conn : connection) (uuid4 : nat -> string)
    (post : string -> loc -> heap -> result response)
    (ellie_config : loc) (selected_schema model_name folder_id : string)
    (include_views : bool) (es : ellie_state)
    : ellie_state * transfer_outcome :=
  if bool_decide (folder_id = "") then (es, FolderIdRequired)
  else
    match int folder_id with
    | None => (es, FolderIdNotANumber)
    | Some folder_id_int =>
        let '(es', r) :=
          transfer_block conn uuid4 post ellie_config selected_schema
            model_name folder_id_int include_views es in
        (es',
         match r with
         | Ok outcome => outcome
         | Raise e => TransferFailed e
         end)
    end.

(** ** [_join_schemas] *)

(** [sep.join(items)] *)
Fixpoint join (sep : string) (items : list string) : string :=
  match items with
  | [] => EmptyString
  | [item] => item
  | item :: items' => item +:+ sep +:+ join sep items'
  end.

Definition _join_schemas (schemas : list string) : string :=
  join ", " (map (fun k => "'" +:+ k +:+ "'") schemas).

(** ** Notions used to state further properties *)

Definition empty_document : model :=
  {| level := "conceptual"; entities := []; relationships := [] |}.

(** The key that a row of [KEY_COLUMN_USAGE] contributes ([None] when one of
    its three columns is missing), and the key of a row of
    [SHOW PRIMARY KEYS]. *)
Definition pk_triple (row : dict_row) : option (string * string * string) :=
  match row !! "TABLE_SCHEMA", row !! "TABLE_NAME", row !! "COLUMN_NAME" with
  | Some s, Some t, Some c => Some (s, t, c)
  | _, _, _ => None
  end.

Definition show_triple (row : dict_row) : string * string * string :=
  (dict_get_default row "schema_name" "",
   dict_get_default row "table_name" "",
   dict_get_default row "column_name" "").

(** The names of a list in the order of their first occurrence. *)
Definition append_new (names : list string) (name : string) : list string :=
  if bool_decide (name ∈ names) then names else names ++ [name].

Definition first_occurrences (names : list string) : list string :=
  fold_left append_new names [].

(** The table names of the column rows of a schema that are in its scope,
    in the order of the rows. *)
Definition scoped_table_names (conn : connection) (include_views : bool)
    (schema : string) : list string :=
  List.filter
    (fun name => bool_decide (name ∈ schema_tables conn include_views schema))
    (map row_table_name (schema_rows conn schema)).

(** A raw foreign-key row of some schema of the run that passes the scope
    check and names the given table and column as the referencing side. *)
Definition flag_justified (conn : connection) (include_views : bool)
    (schemas : list string) (name column : string) : Prop :=
  ∃ schema fk f,
    schema ∈ schemas ∧ fk ∈ _get_foreign_keys conn schema ∧
    read_fk fk = Some f ∧
    fk_table f ∈ schema_tables conn include_views schema ∧
    pk_table f ∈ schema_tables conn include_views schema ∧
    fk_table f = name ∧ fk_column f = column.

(** The identifiers of [entity_ids] are the first [uuid_count] ones of the
    supply, in order. *)
Definition ids_generated (uuid4 : nat -> string) (st : export_state) : Prop :=
  map snd (entity_ids st) = map uuid4 (seq 0 (uuid_count st)).

(** A key is read from the rows of [KEY_COLUMN_USAGE] when its row comes
    after readable rows only. *)
Definition read_before_failure (rows : list dict_row)
    (key : string * string * string) : Prop :=
  ∃ before row after,
    rows = before ++ row :: after ∧
    Forall (fun r => is_Some (pk_triple r)) before ∧
    pk_triple row = Some key.

(** The first primary-key method yields no key: it raises, returns no row,
    or its first row lacks a column. *)
Definition no_key_from_usage (conn : connection) (schema_name : string)
    : Prop :=
  match execute conn (SelectKeyColumnUsage schema_name) with
  | Ok (row :: _) => pk_triple row = None
  | Ok [] | Raise _ => True
  end.

(** The value that the remapping of a [SHOW IMPORTED KEYS] row reads for a
    column: the upper-case key, else the lower-case key, else [""]. *)
Definition either_case (row : dict_row) (upper_key lower_key : string)
    : string :=
  dict_get_default row upper_key (dict_get_default row lower_key "").

(** The number of dots of a string. *)
Fixpoint count_dots (s : string) : nat :=
  match s with
  | EmptyString => 0
  | String c s' => (if decide (c = dot) then 1 else 0) + count_dots s'
  end.

(** The settings dictionary of the application, without the scheme and the
    API version, at location 1 of a store that holds nothing else; no
    client is connected. *)
Definition application_settings : gmap string string :=
  <["organization" := "example.ellie.ai"]> (<["token" := "secret"]> ∅).

Definition application_state : ellie_state :=
  {| settings_of := <[1%positive := application_settings]> ∅;
     ellie_settings_ref := None |}.

(** An API that answers every request with the status 201. *)
Definition creating_api (url : string) (model : loc) (h : heap)
    : result response :=
  Ok {| status_code := 201; text := url |}.

(** The built-in [int] on the texts used below. *)
Definition int_of (s : string) : option Z :=
  if decide (s = "42") then Some 42%Z else None.

(** Settings of the application, and a connector that accepts every
    call and returns the shop catalog. *)
Definition standard_settings : gmap string string :=
  <["connection_mode" := "standard"]>
  (<["account" := "https://nn73358.eu-north-1.aws.snowflakecomputing.com"]>
  (<["user" := "ANALYST"]>
  (<["password" := "secret"]>
  (<["warehouse" := "COMPUTE_WH"]>
  (<["database" := "SHOP"]>
  (<["role" := "PUBLIC"]>
  (<["custom_url" := ""]> ∅))))))).

Definition accepting_connector (args : connect_arguments)
    : result connection :=
  Ok shop.

(** The URL that [models_url] builds from an organization, an API version
    and a token. *)
Definition models_endpoint (organization api_version token : string)
    : string :=
  organization +:+ "/api/" +:+ api_version +:+ "/models?token=" +:+ token.

(** What the branch on the status code of a response makes of a document
    with the given numbers of entities and relationships. *)
Definition outcome_of (entity_count relationship_count : nat)
    (posted : result response) : transfer_outcome :=
  match posted with
  | Ok r =>
      if bool_decide (200 ≤ status_code r)%Z
         && bool_decide (status_code r < 300)%Z
      then ModelCreated entity_count relationship_count r
      else ModelRejected r
  | Raise e => TransferFailed e
  end.

(** The document that the transfer posts. *)
Definition posted_document (doc : model) (model_name : string)
    (folder_id_int : Z) : pydict :=
  <["level" := PStr "physical"]>
  (<["name" := PStr model_name]>
  (<["folderId" := PInt folder_id_int]> (dict_of_model doc))).

(** ** Further catalogs used as concrete inputs *)

(** The standard listing is empty and [SHOW TABLES] lists a table and a
    view. *)
Definition listed_by_show_tables : connection :=
  {| cursor := Ok tt;
     execute := fun q =>
       match q with
       | ShowTables _ =>
           Ok [ <["name" := "ORDERS"]> {[ "kind" := "Table" ]};
                <["name" := "ORDER_TOTALS"]> {[ "kind" := "VIEW" ]} ]
       | _ => Ok []
       end;
     execute_tuples := fun _ => Ok [] |}.

(** The catalog [shop] when [INFORMATION_SCHEMA.TABLES] shows no row of the
    schema: the tables are listed by [SHOW TABLES] only, whose rows carry
    the columns [name] and [kind]; the column catalog, the keys and the
    foreign keys are those of [shop]. *)
Definition shop_listed_by_show_tables : connection :=
  {| cursor := Ok tt;
     execute := fun q =>
       match q with
       | SelectTables _ _ => Ok []
       | ShowTables _ =>
           Ok [ <["name" := "ORDERS"]> {[ "kind" := "TABLE" ]};
                <["name" := "CUSTOMERS"]> {[ "kind" := "TABLE" ]} ]
       | _ => execute shop q
       end;
     execute_tuples := execute_tuples shop |}.

(** The primary keys come from [SHOW PRIMARY KEYS] only: the standard
    query raises. *)
Definition shop_show_primary_keys : connection :=
  {| cursor := Ok tt;
     execute := fun q =>
       match q with
       | SelectKeyColumnUsage _ => Raise (DatabaseError CatalogAccess)
       | ShowPrimaryKeys _ =>
           Ok [ <["schema_name" := "PUBLIC"]>
                (<["table_name" := "ORDERS"]> {[ "column_name" := "id" ]}) ]
       | _ => execute shop q
       end;
     execute_tuples := execute_tuples shop |}.

(** The shop catalog when the first foreign-key method answers, with the
    upper-case aliases of its SELECT list as keys. *)
Definition referential_row : dict_row :=
  <["CONSTRAINT_NAME" := "FK_ORDERS_CUSTOMERS"]>
  (<["PK_SCHEMA_NAME" := "PUBLIC"]>
  (<["PK_TABLE_NAME" := "CUSTOMERS"]>
  (<["PK_COLUMN_NAME" := "id"]>
  (<["FK_SCHEMA_NAME" := "PUBLIC"]>
  (<["FK_TABLE_NAME" := "ORDERS"]>
  (<["FK_COLUMN_NAME" := "customer_id"]> ∅)))))).

Definition shop_referential : connection :=
  {| cursor := Ok tt;
     execute := fun q =>
       match q with
       | SelectReferentialConstraints _ => Ok [referential_row]
       | _ => execute shop q
       end;
     execute_tuples := execute_tuples shop |}.

(** * Facts about insertion-ordered dictionaries *)

Section odict_facts.
Context {V : Type}.
Implicit Types (d : odict V) (k : string) (v : V).

Lemma odict_mem_true k d : odict_mem k d = true ↔ k ∈ odict_keys d.
Proof. unfold odict_mem. by rewrite bool_decide_eq_true. Qed.

Lemma odict_mem_false k d : odict_mem k d = false ↔ k ∉ odict_keys d.
Proof. unfold odict_mem. by rewrite bool_decide_eq_false. Qed.

Lemma odict_keys_app d1 d2 :
  odict_keys (d1 ++ d2) = odict_keys d1 ++ odict_keys d2.
Proof. unfold odict_keys. by rewrite fmap_app. Qed.

Lemma odict_keys_alter f k d : odict_keys (odict_alter f k d) = odict_keys d.
Proof.
  unfold odict_keys.
  induction d as [|[k' v'] d IH]; [done|].
  simpl. destruct (decide (k' = k)); csimpl; [done|]. by rewrite IH.
Qed.

Lemma odict_set_fresh k v d :
  k ∉ odict_keys d → odict_set k v d = d ++ [(k, v)].
Proof.
  induction d as [|[k' v'] d IH]; intros Hk; [done|].
  simpl in *. apply not_elem_of_cons in Hk as [Hne Hk].
  destruct (decide (k' = k)); [congruence|]. by rewrite IH.
Qed.

Lemma odict_alter_fresh f k d : k ∉ odict_keys d → odict_alter f k d = d.
Proof.
  induction d as [|[k' v'] d IH]; intros Hk; [done|].
  simpl in *. apply not_elem_of_cons in Hk as [Hne Hk].
  destruct (decide (k' = k)); [congruence|]. by rewrite IH.
Qed.

Lemma odict_alter_app_l f k d1 d2 :
  k ∈ odict_keys d1 → odict_alter f k (d1 ++ d2) = odict_alter f k d1 ++ d2.
Proof.
  induction d1 as [|[k' v'] d1 IH]; intros Hk.
  - by apply elem_of_nil in Hk.
  - simpl in *. destruct (decide (k' = k)); [done|].
    apply elem_of_cons in Hk as [Hk|Hk]; [congruence|]. by rewrite IH.
Qed.

Lemma odict_alter_app_r f k d1 d2 :
  k ∉ odict_keys d1 → odict_alter f k (d1 ++ d2) = d1 ++ odict_alter f k d2.
Proof.
  induction d1 as [|[k' v'] d1 IH]; intros Hk; [done|].
  simpl in *. apply not_elem_of_cons in Hk as [Hne Hk].
  destruct (decide (k' = k)); [congruence|]. by rewrite IH.
Qed.

Lemma odict_lookup_None k d : odict_lookup k d = None ↔ k ∉ odict_keys d.
Proof.
  induction d as [|[k' v'] d IH]; simpl.
  - split; [intros _; apply not_elem_of_nil|done].
  - rewrite not_elem_of_cons. destruct (decide (k' = k)) as [->|Hne].
    + split; [done|]. intros [? _]. congruence.
    + rewrite IH. split; [by intros; split; [congruence|]|by intros [_ ?]].
Qed.

Lemma odict_lookup_is_Some k d :
  is_Some (odict_lookup k d) ↔ k ∈ odict_keys d.
Proof.
  rewrite <- not_eq_None_Some, odict_lookup_None.
  destruct (decide (k ∈ odict_keys d)); naive_solver.
Qed.

Lemma odict_lookup_app k d1 d2 :
  odict_lookup k (d1 ++ d2) =
  match odict_lookup k d1 with
  | Some v => Some v
  | None => odict_lookup k d2
  end.
Proof.
  induction d1 as [|[k' v'] d1 IH]; [done|].
  simpl. by destruct (decide (k' = k)).
Qed.

Lemma odict_lookup_alter f k k' d :
  odict_lookup k' (odict_alter f k d) =
  if decide (k = k') then f <$> odict_lookup k' d else odict_lookup k' d.
Proof.
  induction d as [|[k0 v0] d IH]; simpl.
  - by destruct (decide (k = k')).
  - destruct (decide (k0 = k)) as [->|Hne]; simpl.
    + repeat case_decide; simplify_eq; done.
    + rewrite IH. repeat case_decide; simplify_eq; done.
Qed.

Lemma odict_lookup_elem k v d : odict_lookup k d = Some v → (k, v) ∈ d.
Proof.
  induction d as [|[k' v'] d IH]; simpl; [done|].
  destruct (decide (k' = k)) as [->|]; intros H.
  - injection H as ->. apply elem_of_cons. by left.
  - apply elem_of_cons. right. by apply IH.
Qed.

Lemma odict_elem_lookup k v d :
  NoDup (odict_keys d) → (k, v) ∈ d → odict_lookup k d = Some v.
Proof.
  induction d as [|[k' v'] d IH]; simpl; intros Hnd Hin.
  - by apply elem_of_nil in Hin.
  - apply NoDup_cons in Hnd as [Hk' Hnd].
    apply elem_of_cons in Hin as [Heq|Hin].
    + injection Heq as -> ->. by rewrite decide_True.
    + destruct (decide (k' = k)) as [->|]; [|by apply IH].
      exfalso. apply Hk'. unfold odict_keys.
      apply list_elem_of_fmap. by exists (k, v).
Qed.
End odict_facts.

(** * The column loop *)

Section column_loop.
Variable uuid4 : nat -> string.
Variable tables : list string.

Lemma add_column_skip st row :
  row_table_name row ∉ tables → add_column uuid4 tables st row = st.
Proof. intros H. unfold add_column. by rewrite bool_decide_eq_true_2. Qed.

Lemma add_column_known st row :
  row_table_name row ∈ tables →
  row_table_name row ∈ odict_keys (grouped_rows st) →
  add_column uuid4 tables st row =
  {| grouped_rows :=
       odict_alter (fun attrs => attrs ++ [make_attribute row])
         (row_table_name row) (grouped_rows st);
     entity_ids := entity_ids st;
     rels := rels st;
     uuid_count := uuid_count st |}.
Proof.
  intros Ht Hk. unfold add_column.
  rewrite bool_decide_eq_false_2 by (by intros ?).
  apply odict_mem_true in Hk. by rewrite Hk.
Qed.

Lemma add_column_new st row :
  row_table_name row ∈ tables →
  row_table_name row ∉ odict_keys (grouped_rows st) →
  row_table_name row ∉ odict_keys (entity_ids st) →
  add_column uuid4 tables st row =
  {| grouped_rows :=
       grouped_rows st ++ [(row_table_name row, [make_attribute row])];
     entity_ids :=
       entity_ids st ++ [(row_table_name row, uuid4 (uuid_count st))];
     rels := rels st;
     uuid_count := S (uuid_count st) |}.
Proof.
  intros Ht Hk Hi. unfold add_column.
  rewrite bool_decide_eq_false_2 by (by intros ?).
  pose proof Hk as Hm. apply odict_mem_false in Hm. rewrite Hm. simpl.
  rewrite !odict_set_fresh by done.
  rewrite odict_alter_app_r by done. simpl.
  by rewrite decide_True.
Qed.

Lemma add_column_wf st row :
  wf_state st → wf_state (add_column uuid4 tables st row).
Proof.
  intros (Hkeys & Hnd & Hne).
  destruct (decide (row_table_name row ∈ tables)) as [Ht|Ht];
    [|by rewrite add_column_skip].
  destruct (decide (row_table_name row ∈ odict_keys (grouped_rows st)))
    as [Hk|Hk].
  - rewrite add_column_known by done. split_and!; simpl.
    + by rewrite odict_keys_alter.
    + by rewrite odict_keys_alter.
    + clear Hkeys Hnd Hk. induction (grouped_rows st) as [|[k v] d IH];
        [done|].
      apply Forall_cons in Hne as [Hv Hd]. simpl.
      destruct (decide (k = row_table_name row)).
      * apply Forall_cons; split; [|done]. simpl. by destruct v.
      * apply Forall_cons; split; [done|]. by apply IH.
  - rewrite add_column_new by (by rewrite <- ?Hkeys). split_and!; simpl.
    + by rewrite !odict_keys_app, Hkeys.
    + rewrite odict_keys_app. apply NoDup_app. split_and!; [done| |].
      * intros x Hx Hx'. apply list_elem_of_singleton in Hx'. by subst.
      * apply NoDup_singleton.
    + apply Forall_app. split; [done|]. by apply Forall_singleton.
Qed.

Lemma add_column_rels st row :
  rels (add_column uuid4 tables st row) = rels st.
Proof. unfold add_column. by repeat case_match. Qed.

Lemma add_column_keys st row k :
  wf_state st →
  k ∈ odict_keys (grouped_rows (add_column uuid4 tables st row)) ↔
  k ∈ odict_keys (grouped_rows st) ∨
  (k ∈ tables ∧ row_table_name row = k).
Proof.
  intros (Hkeys & Hnd & Hne).
  destruct (decide (row_table_name row ∈ tables)) as [Ht|Ht].
  2:{ rewrite add_column_skip by done.
      split; [by left|]. by intros [?|[? <-]]. }
  destruct (decide (row_table_name row ∈ odict_keys (grouped_rows st)))
    as [Hk|Hk].
  - rewrite add_column_known by done. simpl. rewrite odict_keys_alter.
    split; [by left|]. by intros [?|[_ <-]].
  - rewrite add_column_new by (by rewrite <- ?Hkeys). simpl.
    rewrite odict_keys_app, elem_of_app. simpl.
    rewrite list_elem_of_singleton. split.
    + intros [?|Heq]; [by left|]. subst k. by right.
    + intros [?|[_ <-]]; [by left|by right].
Qed.

Lemma add_column_ids st row k i :
  wf_state st →
  odict_lookup k (entity_ids st) = Some i →
  odict_lookup k (entity_ids (add_column uuid4 tables st row)) = Some i.
Proof.
  intros (Hkeys & Hnd & Hne) Hi.
  destruct (decide (row_table_name row ∈ tables)) as [Ht|Ht];
    [|by rewrite add_column_skip].
  destruct (decide (row_table_name row ∈ odict_keys (grouped_rows st)))
    as [Hk|Hk].
  - by rewrite add_column_known.
  - rewrite add_column_new by (by rewrite <- ?Hkeys). simpl.
    by rewrite odict_lookup_app, Hi.
Qed.

Lemma add_column_attributes st row k :
  wf_state st →
  attributes_of k (add_column uuid4 tables st row) =
  attributes_of k st ++
  (if bool_decide (k ∈ tables) && bool_decide (row_table_name row = k)
   then [make_attribute row] else []).
Proof.
  intros (Hkeys & Hnd & Hne). unfold attributes_of.
  destruct (decide (row_table_name row ∈ tables)) as [Ht|Ht].
  2:{ rewrite add_column_skip by done.
      destruct (bool_decide_reflect (k ∈ tables)); simpl;
        [|by rewrite app_nil_r].
      rewrite bool_decide_eq_false_2 by congruence. by rewrite app_nil_r. }
  destruct (decide (row_table_name row ∈ odict_keys (grouped_rows st)))
    as [Hk|Hk].
  - rewrite add_column_known by done. simpl. rewrite odict_lookup_alter.
    destruct (decide (row_table_name row = k)) as [<-|Hne'].
    + rewrite !bool_decide_eq_true_2 by done. simpl.
      apply odict_lookup_is_Some in Hk as [v ->]. done.
    + rewrite (bool_decide_eq_false_2 (_ = _)) by done.
      by rewrite andb_false_r, app_nil_r.
  - rewrite add_column_new by (by rewrite <- ?Hkeys). simpl.
    rewrite odict_lookup_app. simpl.
    destruct (decide (row_table_name row = k)) as [<-|Hne'].
    + rewrite !bool_decide_eq_true_2 by done. simpl.
      apply odict_lookup_None in Hk. by rewrite Hk.
    + rewrite (bool_decide_eq_false_2 (_ = _)) by done.
      rewrite andb_false_r, app_nil_r. by destruct (odict_lookup _ _).
Qed.
Lemma columns_wf rows st :
  wf_state st → wf_state (fold_left (add_column uuid4 tables) rows st).
Proof.
  revert st. induction rows as [|row rows IH]; intros st Hwf; [done|].
  simpl. apply IH. by apply add_column_wf.
Qed.

Lemma columns_rels rows st :
  rels (fold_left (add_column uuid4 tables) rows st) = rels st.
Proof.
  revert st. induction rows as [|row rows IH]; intros st; [done|].
  simpl. by rewrite IH, add_column_rels.
Qed.

Lemma columns_keys rows st k :
  wf_state st →
  k ∈ odict_keys (grouped_rows (fold_left (add_column uuid4 tables) rows st))
  ↔ k ∈ odict_keys (grouped_rows st) ∨
    (k ∈ tables ∧ ∃ row, row ∈ rows ∧ row_table_name row = k).
Proof.
  revert st. induction rows as [|row rows IH]; intros st Hwf; simpl.
  - split; [by left|]. intros [?|(_ & row & Hrow & _)]; [done|].
    by apply elem_of_nil in Hrow.
  - rewrite IH by (by apply add_column_wf). rewrite add_column_keys by done.
    split.
    + intros [[?|[? ?]]|(? & row' & ? & ?)]; [by left| |].
      * right. split; [done|]. exists row. split; [|done].
        apply elem_of_cons. by left.
      * right. split; [done|]. exists row'. split; [|done].
        apply elem_of_cons. by right.
    + intros [?|(? & row' & Hin & ?)]; [by left; left|].
      apply elem_of_cons in Hin as [->|Hin].
      * left. right. done.
      * right. split; [done|]. by exists row'.
Qed.

Lemma columns_ids rows st k i :
  wf_state st →
  odict_lookup k (entity_ids st) = Some i →
  odict_lookup k
    (entity_ids (fold_left (add_column uuid4 tables) rows st)) = Some i.
Proof.
  revert st. induction rows as [|row rows IH]; intros st Hwf Hi; [done|].
  simpl. apply IH; [by apply add_column_wf|by apply add_column_ids].
Qed.

Lemma columns_attributes rows st k :
  wf_state st →
  attributes_of k (fold_left (add_column uuid4 tables) rows st) =
  attributes_of k st ++
  (if bool_decide (k ∈ tables) then
     map make_attribute
       (List.filter (fun row => bool_decide (row_table_name row = k)) rows)
   else []).
Proof.
  revert st. induction rows as [|row rows IH]; intros st Hwf; simpl.
  - destruct (bool_decide _); simpl; by rewrite app_nil_r.
  - rewrite IH by (by apply add_column_wf).
    rewrite add_column_attributes by done. rewrite <- app_assoc. f_equal.
    destruct (bool_decide (k ∈ tables)); simpl; [|done].
    by destruct (bool_decide (row_table_name row = k)).
Qed.
End column_loop.

(** * The foreign-key loop *)

Section fk_loop.
Variable tables : list string.

Lemma process_fk_ids st fk :
  entity_ids (process_fk tables st fk) = entity_ids st.
Proof. unfold process_fk. by repeat case_match. Qed.

Lemma process_fk_keys st fk :
  odict_keys (grouped_rows (process_fk tables st fk)) =
  odict_keys (grouped_rows st).
Proof.
  unfold process_fk. repeat case_match; simpl; try done;
    by rewrite odict_keys_alter.
Qed.

Lemma process_fk_wf st fk :
  wf_state st → wf_state (process_fk tables st fk).
Proof.
  intros (Hkeys & Hnd & Hne). unfold wf_state.
  rewrite process_fk_keys, process_fk_ids. split_and!; [done..|].
  unfold process_fk. repeat case_match; simpl; try done.
  all: clear -Hne; induction (grouped_rows st) as [|[k v] d IH]; [done|].
  all: apply Forall_cons in Hne as [Hv Hd]; simpl.
  all: destruct (decide _); apply Forall_cons; split; simpl; auto.
  all: by destruct v.
Qed.

Lemma emitted_relationship_ext st st' fk :
  odict_keys (grouped_rows st') = odict_keys (grouped_rows st) →
  entity_ids st' = entity_ids st →
  emitted_relationship tables st' fk = emitted_relationship tables st fk.
Proof.
  intros Hk Hi. unfold emitted_relationship, odict_mem. by rewrite Hk, Hi.
Qed.

Lemma process_fk_rels st fk :
  rels (process_fk tables st fk) =
  rels st ++ option_list (emitted_relationship tables st fk).
Proof.
  unfold process_fk, emitted_relationship.
  destruct (read_fk fk) as [f|]; [|by rewrite app_nil_r].
  destruct (bool_decide_reflect (fk_table f ∈ tables)) as [Hf|Hf]; simpl.
  2:{ rewrite bool_decide_eq_true_2 by done. simpl. by rewrite app_nil_r. }
  rewrite (bool_decide_eq_false_2 (fk_table f ∉ tables)) by (by intros ?).
  destruct (bool_decide_reflect (pk_table f ∈ tables)) as [Hp|Hp]; simpl.
  2:{ rewrite bool_decide_eq_true_2 by done. simpl. by rewrite app_nil_r. }
  rewrite (bool_decide_eq_false_2 (pk_table f ∉ tables)) by (by intros ?).
  simpl.
  assert (∀ k, odict_mem k
      (if odict_mem (fk_table f) (grouped_rows st)
       then odict_alter (map (mark_fk (fk_column f))) (fk_table f)
              (grouped_rows st)
       else grouped_rows st) = odict_mem k (grouped_rows st)) as Hmem.
  { intros k. unfold odict_mem at 1 3. destruct (odict_mem _ _); [|done].
    by rewrite odict_keys_alter. }
  rewrite !Hmem.
  destruct (odict_lookup (pk_table f) (entity_ids st));
    destruct (odict_lookup (fk_table f) (entity_ids st));
    rewrite ?app_nil_r; try done.
  destruct (odict_mem (pk_table f) _ && odict_mem (fk_table f) _);
    simpl; by rewrite ?app_nil_r.
Qed.

Lemma mark_all_nil name a : mark_all tables [] name a = a.
Proof. done. Qed.

Lemma mark_all_name fks name a :
  attr_name (mark_all tables fks name a) = attr_name a.
Proof. unfold mark_all. by destruct (existsb _ _). Qed.

Lemma mark_all_cons fk fks name a :
  mark_all tables (fk :: fks) name a =
  mark_all tables fks name (mark_all tables [fk] name a).
Proof.
  unfold mark_all at 1 3. simpl. rewrite orb_false_r.
  destruct (fk_row_marks tables name (attr_name a) fk) eqn:Hm; simpl.
  - unfold mark_all. simpl. by destruct (existsb _ _).
  - done.
Qed.

Lemma mark_all_single fk name a :
  mark_all tables [fk] name a =
  if fk_row_marks tables name (attr_name a) fk then set_fk a else a.
Proof. unfold mark_all. simpl. by rewrite orb_false_r. Qed.

Lemma map_unmarked fk name (l : list attribute) :
  (∀ a, fk_row_marks tables name (attr_name a) fk = false) →
  map (mark_all tables [fk] name) l = l.
Proof.
  intros H. induction l as [|a l IH]; [done|]. simpl.
  by rewrite IH, mark_all_single, H.
Qed.

Lemma process_fk_attributes st fk name :
  attributes_of name (process_fk tables st fk) =
  map (mark_all tables [fk] name) (attributes_of name st).
Proof.
  unfold process_fk.
  destruct (read_fk fk) as [f|] eqn:Hr.
  2:{ rewrite map_unmarked; [done|]. intros a. unfold fk_row_marks.
      by rewrite Hr. }
  destruct (bool_decide_reflect (fk_table f ∉ tables)) as [Hf|Hf]; simpl.
  { rewrite map_unmarked; [done|]. intros a. unfold fk_row_marks.
    rewrite Hr. by rewrite (bool_decide_eq_false_2 (fk_table f ∈ tables)). }
  destruct (bool_decide_reflect (pk_table f ∉ tables)) as [Hp|Hp]; simpl.
  { rewrite map_unmarked; [done|]. intros a. unfold fk_row_marks.
    rewrite Hr. rewrite (bool_decide_eq_false_2 (pk_table f ∈ tables)) by done.
    by rewrite andb_false_r. }
  apply dec_stable in Hf. apply dec_stable in Hp.
  unfold attributes_of. simpl.
  assert (odict_lookup name
      (if odict_mem (fk_table f) (grouped_rows st)
       then odict_alter (map (mark_fk (fk_column f))) (fk_table f)
              (grouped_rows st)
       else grouped_rows st) =
      odict_lookup name
        (odict_alter (map (mark_fk (fk_column f))) (fk_table f)
           (grouped_rows st))) as ->.
  { destruct (odict_mem _ _) eqn:Hm; [done|].
    apply odict_mem_false in Hm. by rewrite odict_alter_fresh. }
  rewrite odict_lookup_alter.
  destruct (decide (fk_table f = name)) as [Hn|Hn].
  - destruct (odict_lookup name (grouped_rows st)) as [attrs|]; [|done].
    simpl. apply map_ext. intros a. rewrite mark_all_single.
    unfold mark_fk, fk_row_marks. rewrite Hr.
    rewrite !bool_decide_eq_true_2 by done. simpl.
    destruct (decide (attr_name a = fk_column f)) as [Ha|Ha].
    + by rewrite bool_decide_eq_true_2.
    + by rewrite bool_decide_eq_false_2.
  - rewrite map_unmarked; [done|]. intros a. unfold fk_row_marks.
    rewrite Hr. rewrite (bool_decide_eq_false_2 (fk_table f = name)) by done.
    by rewrite andb_false_r.
Qed.

Lemma fks_ids fks st :
  entity_ids (fold_left (process_fk tables) fks st) = entity_ids st.
Proof.
  revert st. induction fks as [|fk fks IH]; intros st; [done|].
  simpl. by rewrite IH, process_fk_ids.
Qed.

Lemma fks_keys fks st :
  odict_keys (grouped_rows (fold_left (process_fk tables) fks st)) =
  odict_keys (grouped_rows st).
Proof.
  revert st. induction fks as [|fk fks IH]; intros st; [done|].
  simpl. by rewrite IH, process_fk_keys.
Qed.

Lemma fks_wf fks st :
  wf_state st → wf_state (fold_left (process_fk tables) fks st).
Proof.
  revert st. induction fks as [|fk fks IH]; intros st Hwf; [done|].
  simpl. by apply IH, process_fk_wf.
Qed.

Lemma fks_rels fks st :
  rels (fold_left (process_fk tables) fks st) =
  rels st ++ omap (emitted_relationship tables st) fks.
Proof.
  revert st. induction fks as [|fk fks IH]; intros st; simpl.
  - by rewrite app_nil_r.
  - rewrite IH, process_fk_rels, <- app_assoc. f_equal.
    rewrite (list_omap_ext _ (emitted_relationship tables st) fks fks).
    + by destruct (emitted_relationship tables st fk).
    + apply Forall2_same_length_lookup_2; [done|].
      intros i fk1 fk2 H1 H2. assert (fk1 = fk2) as -> by congruence.
      apply emitted_relationship_ext;
        [apply process_fk_keys|apply process_fk_ids].
Qed.

Lemma fks_attributes fks st name :
  attributes_of name (fold_left (process_fk tables) fks st) =
  map (mark_all tables fks name) (attributes_of name st).
Proof.
  revert st. induction fks as [|fk fks IH]; intros st; simpl.
  - induction (attributes_of name st) as [|a l IHl]; [done|].
    simpl. by rewrite <- IHl.
  - rewrite IH, process_fk_attributes, map_map. apply map_ext.
    intros a. symmetry. apply mark_all_cons.
Qed.
End fk_loop.

(** * The loop over the schemas *)

Lemma rmapM_ok {A B} (f : A → result B) (g : A → B) (l : list A) :
  (∀ a, a ∈ l → f a = Ok (g a)) → rmapM f l = Ok (map g l).
Proof.
  induction l as [|a l IH]; intros H; [done|]. simpl.
  rewrite H by (apply elem_of_cons; by left). simpl.
  rewrite IH; [done|]. intros a' Ha'. apply H, elem_of_cons. by right.
Qed.

Section export_loop.
Variable conn : connection.
Variable uuid4 : nat -> string.
Variable include_views : bool.

#[local] Arguments rmapM : simpl never.

Lemma columns_out_of_scope rows st :
  fold_left (add_column uuid4 []) rows st = st.
Proof.
  revert st. induction rows as [|row rows IH]; intros st; [done|].
  simpl. rewrite add_column_skip by apply not_elem_of_nil. apply IH.
Qed.

Lemma fks_out_of_scope fks st : fold_left (process_fk []) fks st = st.
Proof.
  revert st. induction fks as [|fk fks IH]; intros st; [done|].
  simpl. rewrite <- (IH st) at 2. f_equal.
  unfold process_fk. destruct (read_fk fk); [|done].
  by rewrite (bool_decide_eq_true_2 (_ ∉ [])) by apply not_elem_of_nil.
Qed.

Lemma export_schemas_ok schemas st st' :
  export_schemas conn uuid4 include_views schemas st = Ok st' →
  st' = fold_left (schema_pass conn uuid4 include_views) schemas st.
Proof.
  revert st. induction schemas as [|schema schemas IH]; intros st; simpl.
  - by intros [= ->].
  - unfold schema_pass at 2, schema_tables, schema_rows.
    destruct (_get_tables_and_views conn schema include_views)
      as [[|t table_types]|e]; simpl; [| |done].
    + rewrite columns_out_of_scope, fks_out_of_scope. apply IH.
    + unfold export_schema.
      destruct (rmapM _ (t :: table_types)) as [tables|]; simpl; [|done].
      destruct (_query_schema_data conn schema) as [rows|]; simpl; [|done].
      apply IH.
Qed.

Lemma export_schemas_is_ok schemas st :
  is_ok (export_schemas conn uuid4 include_views schemas st) ↔
  ∀ schema, schema ∈ schemas → fetch_succeeds conn include_views schema.
Proof.
  revert st. induction schemas as [|schema schemas IH]; intros st; simpl.
  - split; [|by eexists]. intros _ s Hs. by apply elem_of_nil in Hs.
  - assert (is_ok (export_schemas conn uuid4 include_views
                     (schema :: schemas) st) ↔
            fetch_succeeds conn include_views schema ∧
            ∀ s, s ∈ schemas → fetch_succeeds conn include_views s) as Hiff.
    { simpl. unfold fetch_succeeds at 1, export_schema.
      destruct (_get_tables_and_views conn schema include_views)
        as [[|t table_types]|e]; simpl.
      - rewrite IH. tauto.
      - destruct (rmapM _ (t :: table_types)) as [tables|]; simpl.
        2:{ split; [by intros [? ?]|]. by intros [[[? ?] _] _]. }
        destruct (_query_schema_data conn schema) as [rows|]; simpl.
        2:{ split; [by intros [? ?]|]. by intros [[_ [? ?]] _]. }
        rewrite IH. split; [|tauto].
        intros H. split; [|done]. split; by eexists.
      - split; [by intros [? ?]|]. by intros [[] _]. }
    simpl in Hiff. rewrite Hiff. split.
    + intros [H1 H2] s Hs. apply elem_of_cons in Hs as [->|Hs]; auto.
    + intros H. split; [|intros s Hs]; apply H, elem_of_cons; auto.
Qed.

Lemma schema_pass_wf st schema :
  wf_state st → wf_state (schema_pass conn uuid4 include_views st schema).
Proof. intros Hwf. unfold schema_pass. by apply fks_wf, columns_wf. Qed.

Lemma passes_wf schemas st :
  wf_state st →
  wf_state (fold_left (schema_pass conn uuid4 include_views) schemas st).
Proof.
  revert st. induction schemas as [|schema schemas IH]; intros st Hwf;
    [done|].
  simpl. by apply IH, schema_pass_wf.
Qed.

Lemma initial_state_wf : wf_state initial_state.
Proof. split_and!; simpl; [done|apply NoDup_nil_2|done]. Qed.

Lemma make_entities_wf st :
  wf_state st → make_entities st = Ok (entities (document_of st)).
Proof.
  intros (Hkeys & _ & _). unfold make_entities, document_of. simpl.
  apply rmapM_ok. intros [k attrs] Hin.
  assert (is_Some (odict_lookup k (entity_ids st))) as [i Hi].
  { apply odict_lookup_is_Some. rewrite <- Hkeys. unfold odict_keys.
    apply list_elem_of_fmap. by exists (k, attrs). }
  unfold entity_of. simpl. by rewrite Hi.
Qed.

Lemma snowflake_export_ok schemas doc :
  snowflake_export conn uuid4 schemas include_views = Ok doc →
  doc = document_of
          (fold_left (schema_pass conn uuid4 include_views) schemas
             initial_state).
Proof.
  unfold snowflake_export.
  destruct (export_schemas _ _ _ _ _) as [st|] eqn:Hst; simpl; [|done].
  apply export_schemas_ok in Hst as ->.
  rewrite make_entities_wf by apply passes_wf, initial_state_wf.
  simpl. by intros [= <-].
Qed.

Lemma snowflake_export_is_ok schemas :
  is_ok (snowflake_export conn uuid4 schemas include_views) ↔
  ∀ schema, schema ∈ schemas → fetch_succeeds conn include_views schema.
Proof.
  rewrite <- (export_schemas_is_ok schemas initial_state).
  unfold snowflake_export. split.
  - intros [doc Hdoc].
    destruct (export_schemas _ _ _ _ _) as [st|]; [by eexists|done].
  - intros [st Hst]. rewrite Hst. simpl.
    pose proof Hst as ->%export_schemas_ok.
    rewrite make_entities_wf by apply passes_wf, initial_state_wf.
    by eexists.
Qed.
End export_loop.

(** * One pass and the final state *)

Section passes.
Variable conn : connection.
Variable uuid4 : nat -> string.
Variable include_views : bool.

#[local] Abbreviation pass := (schema_pass conn uuid4 include_views).
#[local] Abbreviation scope := (schema_tables conn include_views).

Lemma pass_keys_eq st schema :
  odict_keys (grouped_rows (pass st schema)) =
  odict_keys (grouped_rows
    (fold_left (add_column uuid4 (scope schema)) (schema_rows conn schema)
       st)).
Proof. unfold schema_pass. apply fks_keys. Qed.

Lemma pass_ids_eq st schema :
  entity_ids (pass st schema) =
  entity_ids
    (fold_left (add_column uuid4 (scope schema)) (schema_rows conn schema)
       st).
Proof. unfold schema_pass. apply fks_ids. Qed.

Lemma pass_keys st schema k :
  wf_state st →
  k ∈ odict_keys (grouped_rows (pass st schema)) ↔
  k ∈ odict_keys (grouped_rows st) ∨
  (in_scope conn include_views schema k ∧ has_column conn schema k).
Proof. intros Hwf. rewrite pass_keys_eq. by apply columns_keys. Qed.

Lemma passes_keys schemas st k :
  wf_state st →
  k ∈ odict_keys (grouped_rows (fold_left pass schemas st)) ↔
  k ∈ odict_keys (grouped_rows st) ∨
  ∃ schema, schema ∈ schemas ∧
    in_scope conn include_views schema k ∧ has_column conn schema k.
Proof.
  revert st. induction schemas as [|schema schemas IH]; intros st Hwf; simpl.
  - split; [by left|]. intros [?|(s & Hs & _)]; [done|].
    by apply elem_of_nil in Hs.
  - rewrite IH by (by apply schema_pass_wf). rewrite pass_keys by done.
    split.
    + intros [[?|?]|(s & ? & ?)]; [by left| |].
      * right. exists schema. split; [|done]. apply elem_of_cons. by left.
      * right. exists s. split; [|done]. apply elem_of_cons. by right.
    + intros [?|(s & Hs & ?)]; [by left; left|].
      apply elem_of_cons in Hs as [->|Hs]; [by left; right|].
      right. by exists s.
Qed.

Lemma pass_ids st schema k i :
  wf_state st →
  odict_lookup k (entity_ids st) = Some i →
  odict_lookup k (entity_ids (pass st schema)) = Some i.
Proof. intros Hwf Hi. rewrite pass_ids_eq. by apply columns_ids. Qed.

Lemma passes_ids schemas st k i :
  wf_state st →
  odict_lookup k (entity_ids st) = Some i →
  odict_lookup k (entity_ids (fold_left pass schemas st)) = Some i.
Proof.
  revert st. induction schemas as [|schema schemas IH]; intros st Hwf Hi;
    [done|].
  simpl. apply IH; [by apply schema_pass_wf|by apply pass_ids].
Qed.

Lemma passes_keys_mono schemas st k :
  wf_state st →
  k ∈ odict_keys (grouped_rows st) →
  k ∈ odict_keys (grouped_rows (fold_left pass schemas st)).
Proof. intros Hwf Hk. apply passes_keys; auto. Qed.

Lemma column_record_mark_all tables fks name a :
  column_record (mark_all tables fks name a) = column_record a.
Proof. unfold mark_all. by destruct (existsb _ _). Qed.

Lemma pass_attributes st schema name :
  wf_state st →
  attributes_of name (pass st schema) =
  map (mark_all (scope schema) (_get_foreign_keys conn schema) name)
    (attributes_of name st ++
     (if bool_decide (name ∈ scope schema) then
        map make_attribute
          (List.filter (fun row => bool_decide (row_table_name row = name))
             (schema_rows conn schema))
      else [])).
Proof.
  intros Hwf. unfold schema_pass.
  by rewrite fks_attributes, columns_attributes.
Qed.

Lemma pass_records st schema name :
  wf_state st →
  map column_record (attributes_of name (pass st schema)) =
  map column_record (attributes_of name st) ++
  table_columns conn include_views name schema.
Proof.
  intros Hwf. rewrite pass_attributes by done.
  rewrite map_map.
  rewrite (map_ext _ column_record)
    by (intros a; apply column_record_mark_all).
  rewrite map_app. f_equal. unfold table_columns.
  destruct (bool_decide _); [|done]. by rewrite map_map.
Qed.

Lemma passes_records schemas st name :
  wf_state st →
  map column_record (attributes_of name (fold_left pass schemas st)) =
  map column_record (attributes_of name st) ++
  concat (map (table_columns conn include_views name) schemas).
Proof.
  revert st. induction schemas as [|schema schemas IH]; intros st Hwf; simpl.
  - by rewrite app_nil_r.
  - rewrite IH by (by apply schema_pass_wf).
    rewrite pass_records by done. by rewrite <- app_assoc.
Qed.

Lemma pass_rels st schema :
  rels (pass st schema) =
  rels st ++
  omap (emitted_relationship (scope schema) (pass st schema))
    (_get_foreign_keys conn schema).
Proof.
  unfold schema_pass at 1. rewrite fks_rels, columns_rels. f_equal.
  apply list_omap_ext, Forall2_same_length_lookup_2; [done|].
  intros i fk1 fk2 H1 H2. assert (fk1 = fk2) as -> by congruence.
  symmetry. apply emitted_relationship_ext;
    [apply pass_keys_eq|apply pass_ids_eq].
Qed.

Lemma emitted_relationship_Some tables st fk r :
  emitted_relationship tables st fk = Some r →
  ∃ f pk_id fk_id,
    read_fk fk = Some f ∧ fk_table f ∈ tables ∧ pk_table f ∈ tables ∧
    odict_lookup (pk_table f) (entity_ids st) = Some pk_id ∧
    odict_lookup (fk_table f) (entity_ids st) = Some fk_id ∧
    pk_table f ∈ odict_keys (grouped_rows st) ∧
    fk_table f ∈ odict_keys (grouped_rows st) ∧
    r = make_relationship pk_id (pk_table f) (pk_column f)
          fk_id (fk_table f) (fk_column f).
Proof.
  unfold emitted_relationship.
  destruct (read_fk fk) as [f|]; [|done].
  destruct (bool_decide_reflect (fk_table f ∈ tables)); [|done].
  destruct (bool_decide_reflect (pk_table f ∈ tables)); [|done]. simpl.
  destruct (odict_lookup (pk_table f) _) as [pk_id|] eqn:Hpi; [|done].
  destruct (odict_lookup (fk_table f) _) as [fk_id|] eqn:Hfi; [|done].
  destruct (odict_mem (pk_table f) _) eqn:Hp; [|done].
  destruct (odict_mem (fk_table f) _) eqn:Hf; [|done]. simpl.
  intros [= <-]. exists f, pk_id, fk_id.
  apply odict_mem_true in Hp, Hf. by split_and!.
Qed.

Lemma emitted_relationship_valid tables st fk f :
  wf_state st →
  read_fk fk = Some f → fk_table f ∈ tables → pk_table f ∈ tables →
  pk_table f ∈ odict_keys (grouped_rows st) →
  fk_table f ∈ odict_keys (grouped_rows st) →
  ∃ pk_id fk_id,
    odict_lookup (pk_table f) (entity_ids st) = Some pk_id ∧
    odict_lookup (fk_table f) (entity_ids st) = Some fk_id ∧
    emitted_relationship tables st fk =
    Some (make_relationship pk_id (pk_table f) (pk_column f)
            fk_id (fk_table f) (fk_column f)).
Proof.
  intros (Hkeys & _ & _) Hr Hf Hp Hpk Hfk. unfold emitted_relationship.
  rewrite Hr. rewrite !bool_decide_eq_true_2 by done. simpl.
  pose proof Hpk as Hpi. pose proof Hfk as Hfi.
  rewrite Hkeys in Hpi, Hfi.
  apply odict_lookup_is_Some in Hpi as [pk_id Hpi].
  apply odict_lookup_is_Some in Hfi as [fk_id Hfi].
  exists pk_id, fk_id. rewrite Hpi, Hfi.
  apply odict_mem_true in Hpk, Hfk. by rewrite Hpk, Hfk.
Qed.

Lemma emitted_relationship_skipped tables st fk :
  (∀ f, read_fk fk = Some f →
        ¬ (fk_table f ∈ tables ∧ pk_table f ∈ tables ∧
           pk_table f ∈ odict_keys (grouped_rows st) ∧
           fk_table f ∈ odict_keys (grouped_rows st))) →
  emitted_relationship tables st fk = None.
Proof.
  intros H. destruct (emitted_relationship tables st fk) as [r|] eqn:Hr;
    [|done].
  apply emitted_relationship_Some in Hr
    as (f & ? & ? & ? & ? & ? & ? & ? & ? & ? & ?).
  exfalso. by apply (H f).
Qed.

(** Every relationship of the final state comes from a raw row of one of
    the schemas, and its identifiers are those of the final state. *)
Lemma passes_rels schemas st r :
  wf_state st →
  r ∈ rels (fold_left pass schemas st) →
  r ∈ rels st ∨
  ∃ schema fk f pk_id fk_id,
    schema ∈ schemas ∧ fk ∈ _get_foreign_keys conn schema ∧
    read_fk fk = Some f ∧
    fk_table f ∈ scope schema ∧ pk_table f ∈ scope schema ∧
    odict_lookup (pk_table f)
      (entity_ids (fold_left pass schemas st)) = Some pk_id ∧
    odict_lookup (fk_table f)
      (entity_ids (fold_left pass schemas st)) = Some fk_id ∧
    pk_table f ∈ odict_keys (grouped_rows (fold_left pass schemas st)) ∧
    fk_table f ∈ odict_keys (grouped_rows (fold_left pass schemas st)) ∧
    r = make_relationship pk_id (pk_table f) (pk_column f)
          fk_id (fk_table f) (fk_column f).
Proof.
  revert st. induction schemas as [|schema schemas IH]; intros st Hwf Hr;
    simpl in *; [by left|].
  pose proof (schema_pass_wf conn uuid4 include_views st schema Hwf) as Hwf'.
  destruct (IH _ Hwf' Hr) as [Hr'|Hr']; clear Hr; rename Hr' into Hr.
  - rewrite pass_rels in Hr. apply elem_of_app in Hr as [Hr|Hr];
      [by left|right].
    apply list_elem_of_omap in Hr as (fk & Hfk & Hr).
    apply emitted_relationship_Some in Hr
      as (f & pk_id & fk_id & ? & ? & ? & ? & ? & ? & ? & ->).
    exists schema, fk, f, pk_id, fk_id.
    split_and!; try done.
    + apply elem_of_cons; by left.
    + by apply passes_ids.
    + by apply passes_ids.
    + by apply passes_keys_mono.
    + by apply passes_keys_mono.
  - right. destruct Hr as (s & fk & f & pk_id & fk_id & Hs & Hrest).
    exists s, fk, f, pk_id, fk_id. split; [|done].
    apply elem_of_cons. by right.
Qed.
End passes.

(** * The document *)

Lemma document_names st :
  entity_names (document_of st) = odict_keys (grouped_rows st).
Proof.
  unfold entity_names, document_of, odict_keys. simpl.
  induction (grouped_rows st) as [|[k v] l IH]; [done|].
  csimpl. by rewrite IH.
Qed.

Lemma document_entity st e :
  e ∈ entities (document_of st) ↔
  ∃ item, item ∈ grouped_rows st ∧ e = entity_of (entity_ids st) item.
Proof.
  unfold document_of. simpl. rewrite list_elem_of_In, in_map_iff.
  split; intros (item & H1 & H2); exists item.
  - apply list_elem_of_In in H2. by split.
  - apply list_elem_of_In in H1. by split.
Qed.

Lemma document_attributes st e :
  wf_state st →
  e ∈ entities (document_of st) →
  ent_attributes e = attributes_of (ent_name e) st.
Proof.
  intros (_ & Hnd & _) ([k attrs] & Hin & ->)%document_entity.
  unfold attributes_of. simpl. by rewrite (odict_elem_lookup k attrs).
Qed.

Lemma document_attributes_elem st name a :
  a ∈ attributes_of name st →
  ∃ e, e ∈ entities (document_of st) ∧ ent_name e = name ∧
       a ∈ ent_attributes e.
Proof.
  unfold attributes_of.
  destruct (odict_lookup name (grouped_rows st)) as [attrs|] eqn:Hl; simpl.
  - intros Ha. exists (entity_of (entity_ids st) (name, attrs)).
    split_and!; [|done..]. apply document_entity. exists (name, attrs).
    split; [|done]. by apply odict_lookup_elem.
  - intros Ha. by apply elem_of_nil in Ha.
Qed.

Lemma document_resolves st name i :
  name ∈ odict_keys (grouped_rows st) →
  odict_lookup name (entity_ids st) = Some i →
  entity_resolves (document_of st) i name.
Proof.
  intros Hk Hi. apply odict_lookup_is_Some in Hk as [attrs Hattrs].
  exists (entity_of (entity_ids st) (name, attrs)). split_and!.
  - apply document_entity. exists (name, attrs). split; [|done].
    by apply odict_lookup_elem.
  - done.
  - unfold entity_of. simpl. by rewrite Hi.
Qed.

Lemma filter_unique_name (es : list entity) e :
  NoDup (map ent_name es) → e ∈ es →
  List.filter (fun e' => bool_decide (ent_name e' = ent_name e)) es = [e].
Proof.
  induction es as [|e0 es IH]; simpl; intros Hnd Hin.
  - by apply elem_of_nil in Hin.
  - apply NoDup_cons in Hnd as [Hnotin Hnd].
    assert (∀ x, x ∈ es → ent_name x ≠ ent_name e0) as Hfresh.
    { intros x Hx Heq. apply Hnotin. rewrite <- Heq.
      apply list_elem_of_In, in_map, list_elem_of_In, Hx. }
    apply elem_of_cons in Hin as [->|Hin].
    + rewrite bool_decide_eq_true_2 by done. f_equal.
      clear IH Hnd Hnotin. induction es as [|x es IH]; [done|]. simpl.
      rewrite bool_decide_eq_false_2
        by (apply Hfresh, elem_of_cons; by left).
      apply IH. intros y Hy. apply Hfresh, elem_of_cons. by right.
    + rewrite bool_decide_eq_false_2
        by (intros Heq; by apply (Hfresh e)).
      by apply IH.
Qed.

Section final_document.
Variable conn : connection.
Variable uuid4 : nat -> string.
Variable include_views : bool.

#[local] Abbreviation final schemas :=
  (fold_left (schema_pass conn uuid4 include_views) schemas initial_state).

Lemma final_wf schemas : wf_state (final schemas).
Proof. apply passes_wf, initial_state_wf. Qed.

Lemma final_names schemas name :
  name ∈ odict_keys (grouped_rows (final schemas)) ↔
  ∃ schema, schema ∈ schemas ∧
    in_scope conn include_views schema name ∧ has_column conn schema name.
Proof.
  rewrite passes_keys by apply initial_state_wf. simpl. split.
  - intros [H|H]; [by apply elem_of_nil in H|done].
  - by right.
Qed.

Lemma final_rels schemas r :
  r ∈ rels (final schemas) →
  ∃ schema fk f pk_id fk_id,
    schema ∈ schemas ∧ fk ∈ _get_foreign_keys conn schema ∧
    read_fk fk = Some f ∧
    fk_table f ∈ schema_tables conn include_views schema ∧
    pk_table f ∈ schema_tables conn include_views schema ∧
    odict_lookup (pk_table f) (entity_ids (final schemas)) = Some pk_id ∧
    odict_lookup (fk_table f) (entity_ids (final schemas)) = Some fk_id ∧
    pk_table f ∈ odict_keys (grouped_rows (final schemas)) ∧
    fk_table f ∈ odict_keys (grouped_rows (final schemas)) ∧
    r = make_relationship pk_id (pk_table f) (pk_column f)
          fk_id (fk_table f) (fk_column f).
Proof.
  intros Hr.
  destruct (passes_rels conn uuid4 include_views schemas initial_state r
              initial_state_wf Hr) as [Hnil|H]; [|done].
  by apply elem_of_nil in Hnil.
Qed.

Lemma export_prefix schemas schema doc :
  snowflake_export conn uuid4 (schemas ++ [schema]) include_views = Ok doc →
  snowflake_export conn uuid4 schemas include_views =
    Ok (document_of (final schemas)) ∧
  doc = document_of
          (schema_pass conn uuid4 include_views (final schemas) schema).
Proof.
  intros Hdoc. split.
  - assert (is_ok (snowflake_export conn uuid4 schemas include_views))
      as [doc0 Hdoc0].
    { apply snowflake_export_is_ok. intros s Hs.
      apply (proj1 (snowflake_export_is_ok conn uuid4 include_views
                      (schemas ++ [schema]))); [by eexists|].
      apply elem_of_app. by left. }
    rewrite Hdoc0. f_equal. by apply snowflake_export_ok.
  - apply snowflake_export_ok in Hdoc. by rewrite fold_left_app in Hdoc.
Qed.
End final_document.

(** * Properties of the export *)

(** X24: the export returns a document exactly when, for every schema, the
    listing is fetched and, when it is not empty, every row of it has the
    key [TABLE_NAME] and the column query succeeds: it never fails because
    a listed table has no column. When it returns a document, the entity
    names are pairwise distinct, a name is an entity exactly when some
    schema lists it under [TABLE_NAME] and shows at least one column row for
    it, and every entity has a non-empty attribute list. *)
Theorem export_entity_per_table_with_columns
    (conn : connection) (uuid4 : nat -> string) (schemas : list string)
    (include_views : bool) :
  (is_ok (snowflake_export conn uuid4 schemas include_views) ↔
   ∀ schema, schema ∈ schemas → fetch_succeeds conn include_views schema) ∧
  ∀ doc,
    snowflake_export conn uuid4 schemas include_views = Ok doc →
    NoDup (entity_names doc) ∧
    (∀ name,
        name ∈ entity_names doc ↔
        ∃ schema, schema ∈ schemas ∧
          in_scope conn include_views schema name ∧
          has_column conn schema name) ∧
    Forall (fun e => ent_attributes e ≠ []) (entities doc).
Proof.
  split; [apply snowflake_export_is_ok|].
  intros doc ->%snowflake_export_ok.
  pose proof (final_wf conn uuid4 include_views schemas)
    as (Hkeys & Hnd & Hne).
  split_and!.
  - by rewrite document_names.
  - intros name. rewrite document_names. apply final_names.
  - apply Forall_forall. intros e ([k attrs] & Hin & ->)%document_entity.
    rewrite Forall_forall in Hne. apply (Hne (k, attrs) Hin).
Qed.

Lemma export_entity_per_table_with_columns_witness :
  ∃ doc,
    snowflake_export shop numbered ["PUBLIC"] true = Ok doc ∧
    entity_names doc = ["CUSTOMERS"; "ORDERS"] ∧
    NoDup (entity_names doc) ∧
    ("ORPHAN" ∈ entity_names doc ↔
     ∃ schema, schema ∈ ["PUBLIC"] ∧
       in_scope shop true schema "ORPHAN" ∧ has_column shop schema "ORPHAN") ∧
    Forall (fun e => ent_attributes e ≠ []) (entities doc).
Proof.
  eexists. split; [vm_compute; reflexivity|]. split; [reflexivity|].
  destruct (export_entity_per_table_with_columns shop numbered ["PUBLIC"] true)
    as [_ H].
  destruct (H _ eq_refl) as (Hnd & Hnames & Hattrs).
  split; [exact Hnd|]. split; [exact (Hnames "ORPHAN")|exact Hattrs].
Defined.

(** C9: entities are keyed by the table name alone. For a table name that
    some schema of the run lists and shows a column of, the document has
    exactly one entity with that name; its attribute list carries, in order,
    the column records of that name from every schema of the run; and every
    relationship end with that name carries the entity's one identifier. *)
Theorem entity_keyed_by_table_name
    (conn : connection) (uuid4 : nat -> string) (schemas : list string)
    (include_views : bool) (doc : model) (schema name : string) :
  snowflake_export conn uuid4 schemas include_views = Ok doc →
  schema ∈ schemas →
  in_scope conn include_views schema name →
  has_column conn schema name →
  ∃ e,
    List.filter (fun e' => bool_decide (ent_name e' = name)) (entities doc)
      = [e] ∧
    map column_record (ent_attributes e) =
      concat (map (table_columns conn include_views name) schemas) ∧
    ∀ r, r ∈ relationships doc →
      (src_name (sourceEntity r) = name →
       src_id (sourceEntity r) = ent_id e) ∧
      (tgt_name (targetEntity r) = name →
       tgt_id (targetEntity r) = ent_id e).
Proof.
  intros ->%snowflake_export_ok Hschema Hscope Hcolumn.
  pose proof (final_wf conn uuid4 include_views schemas) as Hwf.
  assert (name ∈ odict_keys
            (grouped_rows
               (fold_left (schema_pass conn uuid4 include_views) schemas
                  initial_state))) as Hname.
  { apply final_names. by exists schema. }
  set (st := fold_left _ _ _) in *.
  rewrite <- document_names in Hname.
  assert (∃ e, e ∈ entities (document_of st) ∧ ent_name e = name)
    as (e & He & <-).
  { unfold entity_names in Hname.
    apply list_elem_of_In, in_map_iff in Hname as (e & ? & ?%list_elem_of_In).
    by exists e. }
  exists e. split_and!.
  - apply filter_unique_name; [|done].
    fold (entity_names (document_of st)). rewrite document_names.
    by destruct Hwf as (_ & ? & _).
  - rewrite (document_attributes st e) by done.
    unfold st. by rewrite passes_records by apply initial_state_wf.
  - assert (ent_id e =
            default "" (odict_lookup (ent_name e) (entity_ids st))) as Hid.
    { by apply document_entity in He as (item & _ & ->). }
    intros r Hr. simpl in Hr.
    apply final_rels in Hr
      as (s & fk & f & pk_id & fk_id & _ & _ & _ & _ & _
            & Hp & Hf & _ & _ & ->).
    fold st in Hp, Hf. simpl. split; intros Heq; rewrite Hid, <- Heq.
    + by rewrite Hp.
    + by rewrite Hf.
Qed.

Lemma entity_keyed_by_table_name_witness :
  ∃ doc e,
    snowflake_export two_schemas lettered ["SALES"; "HR"] true = Ok doc ∧
    List.filter (fun e' => bool_decide (ent_name e' = "USERS")) (entities doc)
      = [e] ∧
    map column_record (ent_attributes e) =
      [("id", false, "NUMBER"); ("region", false, "TEXT");
       ("badge", false, "NUMBER")].
Proof.
  destruct (entity_keyed_by_table_name two_schemas lettered ["SALES"; "HR"]
              true
              (document_of
                 (fold_left (schema_pass two_schemas lettered true)
                    ["SALES"; "HR"] initial_state))
              "HR" "USERS") as (e & He & Hcols & _).
  - vm_compute. reflexivity.
  - apply list_elem_of_In. right. left. reflexivity.
  - apply list_elem_of_In. left. reflexivity.
  - exists (tag_primary_key ∅ (column "HR" "USERS" "badge" "NUMBER")).
    split; [|reflexivity]. apply list_elem_of_In. left. reflexivity.
  - eexists _, e. split; [vm_compute; reflexivity|].
    split; [exact He|exact Hcols].
Defined.

(** C5: every relationship of the document comes from a raw foreign-key row
    of one of the schemas; its source is the referenced (primary-key) table
    with type "one" and the single attribute name [pk_column], its target is
    the referencing (foreign-key) table with type "many" and the single
    attribute name [fk_column]. *)
Theorem relationship_direction
    (conn : connection) (uuid4 : nat -> string) (schemas : list string)
    (include_views : bool) (doc : model) (r : relationship) :
  snowflake_export conn uuid4 schemas include_views = Ok doc →
  r ∈ relationships doc →
  ∃ schema fk f,
    schema ∈ schemas ∧ fk ∈ _get_foreign_keys conn schema ∧
    read_fk fk = Some f ∧
    src_name (sourceEntity r) = pk_table f ∧
    startType (sourceEntity r) = "one" ∧
    src_attributeNames (sourceEntity r) = [pk_column f] ∧
    tgt_name (targetEntity r) = fk_table f ∧
    endType (targetEntity r) = "many" ∧
    tgt_attributeNames (targetEntity r) = [fk_column f].
Proof.
  intros ->%snowflake_export_ok Hr. simpl in Hr.
  apply final_rels in Hr
    as (s & fk & f & pk_id & fk_id & Hs & Hfk & Hf & _ & _
          & _ & _ & _ & _ & ->).
  exists s, fk, f. by split_and!.
Qed.

Lemma relationship_direction_witness :
  ∃ doc r,
    snowflake_export shop numbered ["PUBLIC"] true = Ok doc ∧
    relationships doc = [r] ∧
    src_name (sourceEntity r) = "CUSTOMERS" ∧
    startType (sourceEntity r) = "one" ∧
    tgt_name (targetEntity r) = "ORDERS" ∧
    endType (targetEntity r) = "many".
Proof.
  eexists _, _. split; [vm_compute; reflexivity|]. split; [reflexivity|].
  match goal with
  | |- src_name (sourceEntity ?r) = _ ∧ _ =>
      destruct (relationship_direction shop numbered ["PUBLIC"] true _ r
                  eq_refl)
        as (schema & fk & f & _ & Hfk & Hf & Hs & Hone & _ & Ht & Hmany & _)
  end.
  - apply list_elem_of_In. left. reflexivity.
  - split; [reflexivity|]. split; [exact Hone|].
    split; [reflexivity|exact Hmany].
Defined.

(** C2, as stated, fails: a raw foreign-key row may name a column that the
    column catalog does not list, and the relationship then references an
    attribute name that no attribute of the entity has. *)
Lemma dangling_attribute_reference :
  ∃ doc,
    snowflake_export shop_unlisted_column numbered ["PUBLIC"] true = Ok doc ∧
    ¬ no_dangling_attributes doc.
Proof.
  eexists. split; [vm_compute; reflexivity|].
  intros Hclaim.
  match type of Hclaim with
  | no_dangling_attributes ?d =>
      destruct (Hclaim (hd (make_relationship "" "" "" "" "" "")
                          (relationships d))) as [Hsrc _]
  end.
  { apply list_elem_of_In. left. reflexivity. }
  destruct (Hsrc "customer_key") as (e & He & Hname & Hattr).
  { apply list_elem_of_In. left. reflexivity. }
  simpl in He, Hname.
  apply list_elem_of_In in He. apply list_elem_of_In in Hattr.
  destruct He as [<-|[<-|[]]]; simpl in Hname, Hattr.
  - destruct Hattr as [Ha|[]]. discriminate Ha.
  - discriminate Hname.
Qed.

(** C2, amended: no relationship has a dangling entity reference. In every
    document of the export, the source and the target of every relationship
    name an entity of the document and carry that entity's identifier. (The
    attribute names are those of the raw foreign-key row; they are not
    compared with the attribute lists.) *)
Theorem relationship_entities_resolve
    (conn : connection) (uuid4 : nat -> string) (schemas : list string)
    (include_views : bool) (doc : model) (r : relationship) :
  snowflake_export conn uuid4 schemas include_views = Ok doc →
  r ∈ relationships doc →
  entity_resolves doc (src_id (sourceEntity r)) (src_name (sourceEntity r)) ∧
  entity_resolves doc (tgt_id (targetEntity r)) (tgt_name (targetEntity r)).
Proof.
  intros ->%snowflake_export_ok Hr. simpl in Hr.
  apply final_rels in Hr
    as (s & fk & f & pk_id & fk_id & _ & _ & _ & _ & _
          & Hp & Hf & Hpk & Hfk & ->).
  simpl. split; by apply document_resolves.
Qed.

Lemma relationship_entities_resolve_witness :
  ∃ doc r,
    snowflake_export shop_unlisted_column numbered ["PUBLIC"] true = Ok doc ∧
    relationships doc = [r] ∧
    entity_resolves doc (src_id (sourceEntity r)) "CUSTOMERS" ∧
    entity_resolves doc (tgt_id (targetEntity r)) "ORDERS".
Proof.
  eexists _, _. split; [vm_compute; reflexivity|]. split; [reflexivity|].
  match goal with
  | |- entity_resolves ?d (src_id (sourceEntity ?r)) _ ∧ _ =>
      destruct (relationship_entities_resolve shop_unlisted_column numbered
                  ["PUBLIC"] true d r) as [Hsrc Htgt]
  end.
  - vm_compute. reflexivity.
  - apply list_elem_of_In. left. reflexivity.
  - split; [exact Hsrc|exact Htgt].
Defined.

(** * Relationships and flags of one pass *)

Lemma has_edge_make ft fc pt pc pk_id pt' pc' fk_id ft' fc' :
  has_edge (ft, fc, pt, pc) (make_relationship pk_id pt' pc' fk_id ft' fc') =
  bool_decide ((ft', fc', pt', pc') = (ft, fc, pt, pc)).
Proof.
  unfold has_edge, relationship_edge. simpl. apply bool_decide_ext.
  split; intros [= -> -> -> ->]; done.
Qed.

#[local] Arguments has_edge : simpl never.
#[local] Arguments make_relationship : simpl never.

Lemma count_relationships_app e rs1 rs2 :
  count_relationships e (rs1 ++ rs2) =
  count_relationships e rs1 + count_relationships e rs2.
Proof.
  unfold count_relationships. by rewrite List.filter_app, length_app.
Qed.

Lemma count_emitted tables st fks ft fc pt pc :
  wf_state st →
  count_relationships (ft, fc, pt, pc)
    (omap (emitted_relationship tables st) fks) =
  if bool_decide (ft ∈ tables ∧ pt ∈ tables ∧
                  ft ∈ odict_keys (grouped_rows st) ∧
                  pt ∈ odict_keys (grouped_rows st))
  then count_raw_rows (ft, fc, pt, pc) fks else 0.
Proof.
  intros Hwf. unfold count_relationships, count_raw_rows.
  destruct (bool_decide_reflect (ft ∈ tables ∧ pt ∈ tables ∧
              ft ∈ odict_keys (grouped_rows st) ∧
              pt ∈ odict_keys (grouped_rows st))) as [Hv|Hv].
  - destruct Hv as (Hft & Hpt & Hfk & Hpk).
    induction fks as [|fk fks IH]; [done|]. csimpl.
    destruct (decide (raw_edge fk = Some (ft, fc, pt, pc))) as [He|He].
    + rewrite (bool_decide_eq_true_2 _ He).
      unfold raw_edge in He. destruct (read_fk fk) as [f|] eqn:Hr; [|done].
      injection He as <- <- <- <-.
      destruct (emitted_relationship_valid tables st fk f)
        as (pk_id & fk_id & _ & _ & ->); try done.
      simpl. rewrite has_edge_make, bool_decide_eq_true_2 by done.
      simpl. by rewrite IH.
    + rewrite (bool_decide_eq_false_2 _ He).
      destruct (emitted_relationship tables st fk) as [r|] eqn:Hem; [|done].
      apply emitted_relationship_Some in Hem
        as (f & pk_id & fk_id & Hr & _ & _ & _ & _ & _ & _ & ->).
      simpl. rewrite has_edge_make, bool_decide_eq_false_2; [done|].
      intros Heq. apply He. unfold raw_edge. by rewrite Hr, Heq.
  - induction fks as [|fk fks IH]; [done|]. csimpl.
    destruct (emitted_relationship tables st fk) as [r|] eqn:Hem; [|done].
    apply emitted_relationship_Some in Hem
      as (f & pk_id & fk_id & Hr & ? & ? & _ & _ & ? & ? & ->).
    simpl. rewrite has_edge_make, bool_decide_eq_false_2; [done|].
    intros [= <- <- <- <-]. by apply Hv.
Qed.

(** C1, as stated, fails: three raw rows with the same 4-tuple give three
    relationships. *)
Lemma duplicate_relationships :
  ∃ doc,
    snowflake_export shop_repeated numbered ["PUBLIC"] true = Ok doc ∧
    count_raw_rows ("ORDERS", "customer_id", "CUSTOMERS", "id")
      (_get_foreign_keys shop_repeated "PUBLIC") = 3 ∧
    count_relationships ("ORDERS", "customer_id", "CUSTOMERS", "id")
      (relationships doc) ≠ 1.
Proof.
  eexists. split; [vm_compute; reflexivity|].
  split; [vm_compute; reflexivity|]. vm_compute. discriminate.
Qed.

(** C1, amended: duplicates are not removed. The pass over a schema (the
    last one of the run over [schemas ++ [schema]], which extends the run
    over [schemas]) appends one relationship for every raw foreign-key row
    of that schema whose two tables are in its scope and are entities: a
    4-tuple carried by [k] raw rows adds [k] relationships, and none when a
    table is out of scope or has no grouped column. *)
Theorem relationship_per_raw_row
    (conn : connection) (uuid4 : nat -> string) (schemas : list string)
    (schema : string) (include_views : bool) (doc : model)
    (ft fc pt pc : string) :
  snowflake_export conn uuid4 (schemas ++ [schema]) include_views = Ok doc →
  ∃ doc0,
    snowflake_export conn uuid4 schemas include_views = Ok doc0 ∧
    count_relationships (ft, fc, pt, pc) (relationships doc) =
    count_relationships (ft, fc, pt, pc) (relationships doc0) +
    (if bool_decide (ft ∈ schema_tables conn include_views schema ∧
                     pt ∈ schema_tables conn include_views schema ∧
                     ft ∈ entity_names doc ∧ pt ∈ entity_names doc)
     then count_raw_rows (ft, fc, pt, pc) (_get_foreign_keys conn schema)
     else 0).
Proof.
  intros [Hdoc0 ->]%export_prefix. eexists. split; [exact Hdoc0|].
  rewrite document_names. simpl.
  rewrite pass_rels, count_relationships_app. f_equal.
  apply count_emitted, schema_pass_wf, final_wf.
Qed.

Lemma relationship_per_raw_row_witness :
  ∃ doc,
    snowflake_export shop_repeated numbered ([] ++ ["PUBLIC"]) true = Ok doc ∧
    count_relationships ("ORDERS", "customer_id", "CUSTOMERS", "id")
      (relationships doc) = 3.
Proof.
  eexists. split; [vm_compute; reflexivity|].
  match goal with
  | |- count_relationships _ (relationships ?d) = _ =>
      destruct (relationship_per_raw_row shop_repeated numbered []
                  "PUBLIC" true d "ORDERS" "customer_id" "CUSTOMERS" "id")
        as (doc0 & Hdoc0 & Hcount)
  end.
  - vm_compute. reflexivity.
  - rewrite Hcount. injection Hdoc0 as <-. vm_compute. reflexivity.
Defined.

Lemma fk_row_marks_true tables name column fk :
  fk_row_marks tables name column fk = true ↔
  ∃ f, read_fk fk = Some f ∧ fk_table f ∈ tables ∧ pk_table f ∈ tables ∧
       fk_table f = name ∧ fk_column f = column.
Proof.
  unfold fk_row_marks. destruct (read_fk fk) as [f|].
  - rewrite !andb_true_iff, !bool_decide_eq_true. split.
    + intros [[[? ?] ?] ?]. by exists f.
    + intros (f' & [= <-] & ? & ? & ? & ?). done.
  - split; [done|]. by intros (f & ? & _).
Qed.

Lemma mark_all_marked tables fks name a fk :
  fk ∈ fks → fk_row_marks tables name (attr_name a) fk = true →
  attr_FK (mark_all tables fks name a) = true.
Proof.
  intros Hin Hm. unfold mark_all.
  assert (existsb (fk_row_marks tables name (attr_name a)) fks = true) as ->.
  { apply existsb_exists. exists fk. split; [|done]. by apply list_elem_of_In. }
  done.
Qed.

Lemma mark_all_flagged tables fks name a :
  attr_FK (mark_all tables fks name a) = true →
  attr_FK a = true ∨
  ∃ fk, fk ∈ fks ∧ fk_row_marks tables name (attr_name a) fk = true.
Proof.
  unfold mark_all.
  destruct (existsb _ fks) eqn:Hex; [|by left].
  intros _. right. apply existsb_exists in Hex as (fk & Hin & Hm).
  exists fk. split; [|done]. by apply list_elem_of_In.
Qed.

Lemma mark_all_unflagged tables fks name a :
  attr_FK a = true → mark_all tables fks name a = a.
Proof.
  intros Ha. unfold mark_all. destruct (existsb _ fks); [|done].
  destruct a. simpl in *. by subst.
Qed.

(** C4, as stated, fails: when the referenced table is listed but has no
    grouped column, no relationship is emitted, yet the FK flag of the
    referencing column is set. *)
Lemma flag_without_relationship :
  ∃ doc,
    snowflake_export shop_hidden_customers numbered ["PUBLIC"] true = Ok doc ∧
    map raw_edge (_get_foreign_keys shop_hidden_customers "PUBLIC") =
      [Some ("ORDERS", "customer_id", "CUSTOMERS", "id")] ∧
    ("CUSTOMERS" ∉ entity_names doc) ∧
    relationships doc = [] ∧
    ∃ e a, e ∈ entities doc ∧ a ∈ ent_attributes e ∧
           ent_name e = "ORDERS" ∧ attr_name a = "customer_id" ∧
           attr_FK a = true.
Proof.
  eexists. split; [vm_compute; reflexivity|].
  split; [vm_compute; reflexivity|]. split.
  - intros H. apply list_elem_of_In in H. simpl in H.
    destruct H as [H|[]]. discriminate H.
  - split; [reflexivity|]. eexists _, _. split_and!.
    + apply list_elem_of_In. left. reflexivity.
    + apply list_elem_of_In. right. left. reflexivity.
    + reflexivity.
    + reflexivity.
    + reflexivity.
Qed.

(** C4, amended: in the pass over a schema (the last one of the run over
    [schemas ++ [schema]], which extends the run over [schemas]), a raw
    foreign-key row whose referencing or referenced table is out of the
    schema's scope is skipped entirely; a row with both tables in scope adds a relationship exactly
    when both tables are entities, and sets the FK flag on every attribute
    named [fk_column] of the referencing entity, also when the referenced
    table has no grouped column. The flags are set before the entities are
    built, so they show in the document; a flag of the document was set
    either in an earlier pass or by an in-scope row of this one. *)
Theorem foreign_key_pass
    (conn : connection) (uuid4 : nat -> string) (schemas : list string)
    (schema : string) (include_views : bool) (doc : model) :
  snowflake_export conn uuid4 (schemas ++ [schema]) include_views = Ok doc →
  ∃ doc0 new,
    snowflake_export conn uuid4 schemas include_views = Ok doc0 ∧
    relationships doc = relationships doc0 ++ new ∧
    (∀ r, r ∈ new →
       ∃ fk f,
         fk ∈ _get_foreign_keys conn schema ∧ read_fk fk = Some f ∧
         fk_table f ∈ schema_tables conn include_views schema ∧
         pk_table f ∈ schema_tables conn include_views schema ∧
         fk_table f ∈ entity_names doc ∧ pk_table f ∈ entity_names doc ∧
         relationship_edge r =
           (fk_table f, [fk_column f], pk_table f, [pk_column f])) ∧
    (∀ fk f,
       fk ∈ _get_foreign_keys conn schema → read_fk fk = Some f →
       fk_table f ∈ schema_tables conn include_views schema →
       pk_table f ∈ schema_tables conn include_views schema →
       fk_table f ∈ entity_names doc → pk_table f ∈ entity_names doc →
       ∃ r, r ∈ new ∧
            relationship_edge r =
              (fk_table f, [fk_column f], pk_table f, [pk_column f])) ∧
    (∀ fk f e a,
       fk ∈ _get_foreign_keys conn schema → read_fk fk = Some f →
       fk_table f ∈ schema_tables conn include_views schema →
       pk_table f ∈ schema_tables conn include_views schema →
       e ∈ entities doc → ent_name e = fk_table f →
       a ∈ ent_attributes e → attr_name a = fk_column f →
       attr_FK a = true) ∧
    (∀ e a,
       e ∈ entities doc → a ∈ ent_attributes e → attr_FK a = true →
       (∃ e0, e0 ∈ entities doc0 ∧ ent_name e0 = ent_name e ∧
              a ∈ ent_attributes e0) ∨
       (∃ fk f,
          fk ∈ _get_foreign_keys conn schema ∧ read_fk fk = Some f ∧
          fk_table f ∈ schema_tables conn include_views schema ∧
          pk_table f ∈ schema_tables conn include_views schema ∧
          fk_table f = ent_name e ∧ fk_column f = attr_name a)).
Proof.
  intros [Hdoc0 ->]%export_prefix.
  set (st0 := fold_left _ schemas initial_state) in *.
  set (st1 := schema_pass conn uuid4 include_views st0 schema).
  assert (wf_state st0) as Hwf0 by apply final_wf.
  assert (wf_state st1) as Hwf1 by by apply schema_pass_wf.
  exists (document_of st0),
    (omap (emitted_relationship (schema_tables conn include_views schema) st1)
       (_get_foreign_keys conn schema)).
  split; [exact Hdoc0|]. split; [apply pass_rels|].
  rewrite document_names. split_and!.
  - intros r (fk & Hfk & Hr)%list_elem_of_omap.
    apply emitted_relationship_Some in Hr
      as (f & pk_id & fk_id & ? & ? & ? & _ & _ & ? & ? & ->).
    exists fk, f. by split_and!.
  - intros fk f Hfk Hr Hft Hpt Hfn Hpn.
    destruct (emitted_relationship_valid
                (schema_tables conn include_views schema) st1 fk f)
      as (pk_id & fk_id & _ & _ & Hem); try done.
    exists (make_relationship pk_id (pk_table f) (pk_column f)
              fk_id (fk_table f) (fk_column f)).
    split; [|reflexivity].
    apply list_elem_of_omap. by exists fk.
  - intros fk f e a Hfk Hr Hft Hpt He Hname Ha Hcol.
    rewrite (document_attributes st1 e) in Ha by done.
    unfold st1 in Ha. rewrite pass_attributes in Ha by done.
    apply list_elem_of_In, in_map_iff in Ha as (a' & <- & _).
    rewrite mark_all_name in Hcol.
    apply (mark_all_marked _ _ _ _ fk); [done|].
    apply fk_row_marks_true. by exists f.
  - intros e a He Ha Hflag.
    rewrite (document_attributes st1 e) in Ha by done.
    unfold st1 in Ha. rewrite pass_attributes in Ha by done.
    apply list_elem_of_In, in_map_iff in Ha as (a' & <- & Ha').
    apply mark_all_flagged in Hflag as [Hflag|(fk & Hfk & Hm)].
    + left. rewrite mark_all_unflagged by done.
      apply list_elem_of_In, elem_of_app in Ha' as [Ha'|Ha'].
      * by apply document_attributes_elem.
      * exfalso. destruct (bool_decide _); [|by apply elem_of_nil in Ha'].
        apply list_elem_of_In, in_map_iff in Ha' as (row & <- & _).
        discriminate Hflag.
    + right. apply fk_row_marks_true in Hm as (f & ? & ? & ? & ? & ?).
      exists fk, f. rewrite mark_all_name. by split_and!.
Qed.

Lemma foreign_key_pass_witness :
  ∃ doc e a,
    snowflake_export shop_hidden_customers numbered ([] ++ ["PUBLIC"]) true
      = Ok doc ∧
    e ∈ entities doc ∧ a ∈ ent_attributes e ∧
    ent_name e = "ORDERS" ∧ attr_name a = "customer_id" ∧ attr_FK a = true.
Proof.
  eexists _, _, _. split; [vm_compute; reflexivity|].
  split; [apply list_elem_of_In; left; reflexivity|].
  split; [apply list_elem_of_In; right; left; reflexivity|].
  split; [reflexivity|]. split; [reflexivity|].
  match goal with
  | |- attr_FK ?a = true =>
      destruct (foreign_key_pass shop_hidden_customers numbered []
                  "PUBLIC" true
                  (document_of
                     (schema_pass shop_hidden_customers numbered true
                        initial_state "PUBLIC")))
        as (doc0 & new & _ & _ & _ & _ & Hflag & _)
  end.
  - vm_compute. reflexivity.
  - eapply (Hflag (imported_key_row "ORDERS" "customer_id" "CUSTOMERS" "id")).
    + apply list_elem_of_In. left. vm_compute. reflexivity.
    + vm_compute. reflexivity.
    + apply list_elem_of_In. left. reflexivity.
    + apply list_elem_of_In. right. left. reflexivity.
    + apply list_elem_of_In. left. vm_compute. reflexivity.
    + reflexivity.
    + apply list_elem_of_In. right. left. reflexivity.
    + reflexivity.
Defined.

(** * Foreign-key retrieval *)

Lemma try_methods_three conn schema :
  _get_foreign_keys_traced conn schema =
  match attempt conn (SelectReferentialConstraints schema) with
  | (_ :: _) as rows => ([0], rows)
  | [] =>
      match attempt conn (SelectTableConstraints schema) with
      | (_ :: _) as rows => ([0; 1], rows)
      | [] =>
          ([0; 1; 2],
           map remap_imported_key (attempt conn (ShowImportedKeys schema)))
      end
  end.
Proof.
  unfold _get_foreign_keys_traced, methods, attempt, rbind.
  cbn [try_methods Nat.eqb].
  destruct (cursor conn) as [u|e]; [|reflexivity].
  destruct (execute conn (SelectReferentialConstraints schema))
    as [[|r1 l1]|e1];
  destruct (execute conn (SelectTableConstraints schema))
    as [[|r2 l2]|e2];
  destruct (execute conn (ShowImportedKeys schema))
    as [[|r3 l3]|e3]; reflexivity.
Qed.

Lemma remap_imported_key_edge row ft fc pt pc :
  row !! "FK_TABLE_NAME" = Some ft → row !! "FK_COLUMN_NAME" = Some fc →
  row !! "PK_TABLE_NAME" = Some pt → row !! "PK_COLUMN_NAME" = Some pc →
  raw_edge (remap_imported_key row) = Some (ft, fc, pt, pc).
Proof.
  intros Hft Hfc Hpt Hpc.
  unfold raw_edge, read_fk, remap_imported_key, dict_get_default.
  rewrite Hft, Hfc, Hpt, Hpc. simpl.
  by simplify_map_eq.
Qed.

(** C6: the three query methods are tried in the order 1, 2, 3 and the loop
    stops at the first that yields a row: method 2 is tried only when method
    1 yields no row or raises, method 3 only when method 2 does too, and the
    rows of methods 1 and 2 are returned as they are. A row of method 3 that
    carries [FK_TABLE_NAME], [FK_COLUMN_NAME], [PK_TABLE_NAME] and
    [PK_COLUMN_NAME] is remapped to the canonical lower-case keys; when it is
    the only row found and both tables are entities, the document has
    exactly one relationship, from the referenced table ("one") to the
    referencing table ("many"). *)
Theorem foreign_key_methods_in_order
    (conn : connection) (schema : string) :
  let m1 := attempt conn (SelectReferentialConstraints schema) in
  let m2 := attempt conn (SelectTableConstraints schema) in
  let m3 := attempt conn (ShowImportedKeys schema) in
  (m1 ≠ [] → _get_foreign_keys_traced conn schema = ([0], m1)) ∧
  (m1 = [] → m2 ≠ [] → _get_foreign_keys_traced conn schema = ([0; 1], m2)) ∧
  (m1 = [] → m2 = [] →
   _get_foreign_keys_traced conn schema =
     ([0; 1; 2], map remap_imported_key m3)) ∧
  (∀ row ft fc pt pc,
     row !! "FK_TABLE_NAME" = Some ft → row !! "FK_COLUMN_NAME" = Some fc →
     row !! "PK_TABLE_NAME" = Some pt → row !! "PK_COLUMN_NAME" = Some pc →
     raw_edge (remap_imported_key row) = Some (ft, fc, pt, pc) ∧
     ∀ uuid4 include_views doc,
       m1 = [] → m2 = [] → m3 = [row] →
       snowflake_export conn uuid4 [schema] include_views = Ok doc →
       ft ∈ entity_names doc → pt ∈ entity_names doc →
       ∃ r, relationships doc = [r] ∧
            relationship_edge r = (ft, [fc], pt, [pc]) ∧
            startType (sourceEntity r) = "one" ∧
            endType (targetEntity r) = "many").
Proof.
  intros m1 m2 m3. pose proof (try_methods_three conn schema) as Htry.
  fold m1 m2 m3 in Htry. split_and!.
  - intros H1. rewrite Htry. by destruct m1.
  - intros -> H2. rewrite Htry. by destruct m2.
  - intros -> ->. by rewrite Htry.
  - intros row ft fc pt pc Hft Hfc Hpt Hpc.
    pose proof (remap_imported_key_edge row ft fc pt pc Hft Hfc Hpt Hpc)
      as Hedge.
    split; [exact Hedge|].
    intros uuid4 include_views doc H1 H2 H3 Hdoc Hfn Hpn.
    rewrite H1, H2, H3 in Htry.
    apply snowflake_export_ok in Hdoc as ->. simpl in *.
    rewrite document_names in Hfn, Hpn.
    set (st1 := schema_pass conn uuid4 include_views initial_state schema)
      in *.
    assert (wf_state st1) as Hwf
      by apply schema_pass_wf, initial_state_wf.
    assert (∀ name, name ∈ odict_keys (grouped_rows st1) →
                    name ∈ schema_tables conn include_views schema)
      as Hscope.
    { intros name Hn. unfold st1 in Hn.
      apply pass_keys in Hn as [Hn|[Hn _]]; [|done|apply initial_state_wf].
      by apply elem_of_nil in Hn. }
    unfold raw_edge in Hedge.
    destruct (read_fk (remap_imported_key row)) as [f|] eqn:Hr; [|done].
    injection Hedge as <- <- <- <-.
    destruct (emitted_relationship_valid
                (schema_tables conn include_views schema) st1
                (remap_imported_key row) f)
      as (pk_id & fk_id & _ & _ & Hem); auto.
    exists (make_relationship pk_id (pk_table f) (pk_column f)
              fk_id (fk_table f) (fk_column f)).
    split; [|done].
    unfold st1 at 1. rewrite pass_rels. fold st1.
    unfold _get_foreign_keys. rewrite Htry. simpl. by rewrite Hem.
Qed.

Lemma foreign_key_methods_in_order_witness :
  _get_foreign_keys_traced shop "PUBLIC" =
    ([0; 1; 2], [imported_key_row "ORDERS" "customer_id" "CUSTOMERS" "id"]) ∧
  ∃ doc r,
    snowflake_export shop numbered ["PUBLIC"] true = Ok doc ∧
    relationships doc = [r] ∧
    relationship_edge r = ("ORDERS", ["customer_id"], "CUSTOMERS", ["id"]) ∧
    startType (sourceEntity r) = "one" ∧
    endType (targetEntity r) = "many".
Proof.
  destruct (foreign_key_methods_in_order shop "PUBLIC")
    as (_ & _ & Hthird & Hremap).
  split; [apply Hthird; reflexivity|].
  destruct (Hremap (imported_key "ORDERS" "customer_id" "CUSTOMERS" "id")
              "ORDERS" "customer_id" "CUSTOMERS" "id")
    as [_ Hexport]; [reflexivity..|].
  destruct (Hexport numbered true
              (document_of (schema_pass shop numbered true initial_state
                              "PUBLIC")))
    as (r & Hrels & Hedge & Hone & Hmany).
  - reflexivity.
  - reflexivity.
  - reflexivity.
  - vm_compute. reflexivity.
  - apply list_elem_of_In. right. left. reflexivity.
  - apply list_elem_of_In. left. reflexivity.
  - eexists _, r. split; [vm_compute; reflexivity|].
    split; [exact Hrels|]. split; [exact Hedge|]. split; [exact Hone|].
    exact Hmany.
Defined.

(** * Runs that differ in the generated identifiers *)

Lemma erase_values_lookup k ids :
  odict_lookup k (erase_values ids) = (fun _ => "") <$> odict_lookup k ids.
Proof.
  induction ids as [|[k' v] ids IH]; [done|]. simpl.
  by destruct (decide (k' = k)).
Qed.

Lemma erase_values_set k v ids :
  erase_values (odict_set k v ids) = odict_set k "" (erase_values ids).
Proof.
  induction ids as [|[k' v'] ids IH]; [done|]. simpl.
  destruct (decide (k' = k)); simpl; [done|]. by rewrite IH.
Qed.

Lemma erase_make_relationship pk_id pk_table pk_column fk_id fk_table fk_column :
  erase_relationship
    (make_relationship pk_id pk_table pk_column fk_id fk_table fk_column) =
  make_relationship "" pk_table pk_column "" fk_table fk_column.
Proof. done. Qed.

Lemma add_column_erase uuid4 tables st row :
  erase_state (add_column uuid4 tables st row) =
  add_column no_uuid tables (erase_state st) row.
Proof.
  unfold add_column. destruct (bool_decide _); [done|]. simpl.
  destruct (odict_mem _ _); simpl; [done|].
  unfold erase_state. simpl. by rewrite erase_values_set.
Qed.

Lemma process_fk_erase tables st fk :
  erase_state (process_fk tables st fk) =
  process_fk tables (erase_state st) fk.
Proof.
  unfold process_fk. destruct (read_fk fk) as [f|]; [|done].
  destruct (_ || _); [done|].
  unfold erase_state. simpl. f_equal.
  rewrite !erase_values_lookup.
  destruct (odict_lookup (pk_table f) (entity_ids st)); simpl; [|done].
  destruct (odict_lookup (fk_table f) (entity_ids st)); simpl; [|done].
  destruct (_ && _); [|done].
  by rewrite map_app.
Qed.

Lemma columns_erase uuid4 tables rows st :
  erase_state (fold_left (add_column uuid4 tables) rows st) =
  fold_left (add_column no_uuid tables) rows (erase_state st).
Proof.
  revert st. induction rows as [|row rows IH]; intros st; [done|].
  simpl. by rewrite IH, add_column_erase.
Qed.

Lemma fks_erase tables fks st :
  erase_state (fold_left (process_fk tables) fks st) =
  fold_left (process_fk tables) fks (erase_state st).
Proof.
  revert st. induction fks as [|fk fks IH]; intros st; [done|].
  simpl. by rewrite IH, process_fk_erase.
Qed.

Lemma export_schemas_erase conn uuid4 include_views schemas st :
  result_map erase_state
    (export_schemas conn uuid4 include_views schemas st) =
  export_schemas conn no_uuid include_views schemas (erase_state st).
Proof.
  revert st. induction schemas as [|schema schemas IH]; intros st; [done|].
  simpl.
  destruct (_get_tables_and_views conn schema include_views)
    as [[|t table_types]|e]; simpl; [apply IH| |done].
  unfold export_schema.
  destruct (rmapM _ (t :: table_types)) as [tables|]; [|done].
  unfold rbind at 2 4.
  destruct (_query_schema_data conn schema) as [rows|]; [|done].
  unfold rbind. rewrite IH. by rewrite fks_erase, columns_erase.
Qed.

Lemma make_entities_erase st :
  result_map (map erase_entity) (make_entities st) =
  make_entities (erase_state st).
Proof.
  unfold make_entities. simpl.
  induction (grouped_rows st) as [|[k attrs] d IH]; [done|].
  simpl. rewrite erase_values_lookup.
  destruct (odict_lookup k (entity_ids st)); simpl; [|done].
  rewrite <- IH. by destruct (rmapM _ d).
Qed.

Lemma snowflake_export_erase conn uuid4 schemas include_views :
  erase_result (snowflake_export conn uuid4 schemas include_views) =
  snowflake_export conn no_uuid schemas include_views.
Proof.
  unfold snowflake_export.
  pose proof (export_schemas_erase conn uuid4 include_views schemas
                initial_state) as Hst.
  change (erase_state initial_state) with initial_state in Hst.
  rewrite <- Hst.
  destruct (export_schemas conn uuid4 include_views schemas initial_state)
    as [st|]; simpl; [|done].
  rewrite <- make_entities_erase.
  by destruct (make_entities st).
Qed.

(** C8: two runs of the export against the same catalog answers, whatever
    identifiers [uuid.uuid4] generates in each, end in the same way, and
    their documents are equal once the identifiers are forgotten: same
    entities in the same order with the same attribute lists (names, PK and
    FK flags, data types), same relationships in the same order with the
    same names, attribute names and cardinalities. *)
Theorem export_equal_up_to_identifiers
    (conn : connection) (uuid4 uuid4' : nat -> string)
    (schemas : list string) (include_views : bool) :
  erase_result (snowflake_export conn uuid4 schemas include_views) =
  erase_result (snowflake_export conn uuid4' schemas include_views).
Proof. by rewrite !snowflake_export_erase. Qed.

Lemma identifiers_may_differ :
  snowflake_export shop numbered ["PUBLIC"] true ≠
  snowflake_export shop lettered ["PUBLIC"] true.
Proof. vm_compute. discriminate. Qed.

(** * The table listing and its failures *)

Lemma table_listing_raises conn schema_name include_views e :
  _get_tables_and_views conn schema_name include_views = Raise e ↔
  cursor conn = Raise e.
Proof.
  unfold _get_tables_and_views.
  destruct (cursor conn) as [u|e']; simpl;
    [|split; intros [= ->]; reflexivity].
  destruct (execute conn (SelectTables schema_name include_views))
    as [[|t tables]|?]; [|split; congruence..].
  destruct (execute conn (ShowTables schema_name)) as [all_tables|?];
    [|split; congruence].
  destruct include_views; split; congruence.
Qed.

Lemma table_listing_empty conn schema_name include_views :
  cursor conn = Ok tt →
  execute conn (SelectTables schema_name include_views) = Ok [] →
  execute conn (ShowTables schema_name) = Ok [] →
  _get_tables_and_views conn schema_name include_views = Ok [].
Proof.
  intros Hc H1 H2. unfold _get_tables_and_views.
  rewrite Hc. simpl. rewrite H1, H2. by destruct include_views.
Qed.

(** C3 at a failing input: the client reports a connectivity failure on
    every query, and the table listing returns the empty list instead of
    raising; the foreign-key retrieval returns no row, and the whole export
    returns an empty document. *)
Theorem connectivity_failure_swallowed :
  execute unreachable (SelectTables "PUBLIC" true) =
    Raise (DatabaseError Connectivity) ∧
  _get_tables_and_views unreachable "PUBLIC" true = Ok [] ∧
  _get_foreign_keys unreachable "PUBLIC" = [] ∧
  snowflake_export unreachable numbered ["PUBLIC"] true =
    Ok {| level := "conceptual"; entities := []; relationships := [] |}.
Proof. split_and!; reflexivity. Qed.

(** * The import *)

Lemma setitem2_ok h obj k1 k2 v outer l inner :
  h !! obj = Some outer → outer !! k1 = Some (PRef l) →
  h !! l = Some inner →
  setitem2 h obj k1 k2 v = Ok (<[l := <[k2 := v]> inner]> h).
Proof. intros Ho Hk Hl. unfold setitem2. by rewrite Ho, Hk, Hl. Qed.

(** C10: [ellie_model_import] updates the document in place. When [model]
    refers to a dictionary whose key "model" refers to the dictionary
    [inner], the call leaves a store in which [inner] has the keys "name"
    and "level" set to the arguments and every other key as before, and in
    which every other dictionary is untouched; the request is posted with
    the document as it is in that store. *)
Theorem import_sets_name_and_level
    (ellie_settings : option (gmap string string))
    (post : string -> loc -> heap -> result response)
    (name level : string) (model inner_loc : loc) (h : heap)
    (outer inner : pydict) :
  h !! model = Some outer →
  outer !! "model" = Some (PRef inner_loc) →
  h !! inner_loc = Some inner →
  ∃ inner' h',
    ellie_model_import ellie_settings post name model level h =
      (h', url <- models_url ellie_settings ;; post url model h') ∧
    h' !! inner_loc = Some inner' ∧
    inner' !! "name" = Some (PStr name) ∧
    inner' !! "level" = Some (PStr level) ∧
    (∀ k, k ≠ "name" → k ≠ "level" → inner' !! k = inner !! k) ∧
    (∀ l, l ≠ inner_loc → h' !! l = h !! l).
Proof.
  intros Hm Ho Hi.
  exists (<["level" := PStr level]> (<["name" := PStr name]> inner)),
    (<[inner_loc := <["level" := PStr level]> (<["name" := PStr name]> inner)]>
       h).
  split_and!.
  - unfold ellie_model_import.
    rewrite (setitem2_ok h model "model" "name" _ outer inner_loc inner)
      by done.
    set (h1 := <[inner_loc := <["name" := PStr name]> inner]> h).
    assert (∃ outer1, h1 !! model = Some outer1 ∧
                      outer1 !! "model" = Some (PRef inner_loc))
      as (outer1 & Hm1 & Ho1).
    { unfold h1. destruct (decide (inner_loc = model)) as [->|Hne].
      - rewrite lookup_insert_eq. eexists. split; [done|].
        rewrite lookup_insert_ne by done. congruence.
      - rewrite lookup_insert_ne by done. by exists outer. }
    rewrite (setitem2_ok h1 model "model" "level" _ outer1 inner_loc
               (<["name" := PStr name]> inner))
      by (try done; unfold h1; by rewrite lookup_insert_eq).
    unfold h1. by rewrite insert_insert_eq.
  - by rewrite lookup_insert_eq.
  - rewrite lookup_insert_ne by done. by rewrite lookup_insert_eq.
  - by rewrite lookup_insert_eq.
  - intros k Hn Hl. by rewrite !lookup_insert_ne.
  - intros l Hl. by rewrite lookup_insert_ne.
Qed.

Lemma import_sets_name_and_level_witness :
  ∃ inner' h',
    ellie_model_import (Some connected_settings) accepting_api
      "Shop" shop_store.1 "physical" shop_store.2 =
      (h', Ok {| status_code := 200; text := "" |}) ∧
    h' !! 1%positive = Some inner' ∧
    inner' !! "name" = Some (PStr "Shop") ∧
    inner' !! "level" = Some (PStr "physical") ∧
    inner' !! "folderId" = Some (PInt 42) ∧
    inner' !! "entities" = Some (PEntities (entities shop_document)) ∧
    inner' !! "relationships" =
      Some (PRelationships (relationships shop_document)).
Proof.
  destruct (import_sets_name_and_level (Some connected_settings)
              accepting_api "Shop" "physical" shop_store.1 1%positive
              shop_store.2
              (<["model" := PRef 1%positive]> ∅)
              (<["folderId" := PInt 42]> (dict_of_model shop_document)))
    as (inner' & h' & Hcall & Hinner & Hname & Hlevel & Hframe & _).
  - vm_compute. reflexivity.
  - reflexivity.
  - vm_compute. reflexivity.
  - exists inner', h'. split; [exact Hcall|]. split; [exact Hinner|].
    split; [exact Hname|]. split; [exact Hlevel|].
    split; [|split]; rewrite Hframe by discriminate; reflexivity.
Defined.

(** * Further properties of the table listing *)

(** X1: the table listing raises exactly when the cursor cannot be
    obtained, and then with the cursor's exception: no failure of a query
    is ever propagated. *)
Theorem table_listing_raises_only_without_cursor
    (conn : connection) (schema_name : string) (include_views : bool)
    (e : exn) :
  _get_tables_and_views conn schema_name include_views = Raise e ↔
  cursor conn = Raise e.
Proof. apply table_listing_raises. Qed.

(** X2: without views, the rows of a listing are either the non-empty
    answer of the standard query, returned as it is, or rows of
    [SHOW TABLES] whose kind is TABLE in any letter case. *)
Theorem fallback_listing_has_no_view
    (conn : connection) (schema_name : string) (rows : list dict_row) :
  _get_tables_and_views conn schema_name false = Ok rows →
  (execute conn (SelectTables schema_name false) = Ok rows ∧ rows ≠ []) ∨
  (Forall (fun t => upper (dict_get_default t "kind" "") = "TABLE") rows ∧
   ∀ t, t ∈ rows →
     ∃ all_tables,
       execute conn (ShowTables schema_name) = Ok all_tables ∧
       t ∈ all_tables).
Proof.
  unfold _get_tables_and_views.
  destruct (cursor conn) as [u|?]; simpl; [|done].
  destruct (execute conn (SelectTables schema_name false))
    as [[|t tables]|?].
  - destruct (execute conn (ShowTables schema_name)) as [all_tables|?].
    + intros [= <-]. right. split.
      * apply Forall_forall. intros t Ht.
        apply list_elem_of_In, filter_In in Ht as [_ Ht].
        unfold is_base_table in Ht. by apply bool_decide_eq_true in Ht.
      * intros t Ht. exists all_tables. split; [done|].
        apply list_elem_of_In, filter_In in Ht as [Ht _].
        by apply list_elem_of_In.
    + intros [= <-]. right. split; [done|]. intros t Ht.
      by apply elem_of_nil in Ht.
  - intros [= <-]. by left.
  - intros [= <-]. right. split; [done|]. intros t Ht.
    by apply elem_of_nil in Ht.
Qed.

Lemma fallback_listing_has_no_view_witness :
  ∃ rows,
    _get_tables_and_views listed_by_show_tables "PUBLIC" false = Ok rows ∧
    map (fun t => dict_get_default t "name" "") rows = ["ORDERS"] ∧
    Forall (fun t => upper (dict_get_default t "kind" "") = "TABLE") rows.
Proof.
  eexists. split; [vm_compute; reflexivity|]. split; [reflexivity|].
  match goal with
  | |- Forall _ ?rows =>
      destruct (fallback_listing_has_no_view listed_by_show_tables "PUBLIC"
                  rows) as [[Hex _]|[Hkind _]]
  end.
  - vm_compute. reflexivity.
  - exfalso. revert Hex. vm_compute. intros H. discriminate H.
  - exact Hkind.
Defined.

(** * Further properties of the export *)

Lemma export_schemas_empty_listings conn uuid4 include_views schemas st :
  (∀ schema, schema ∈ schemas →
     _get_tables_and_views conn schema include_views = Ok []) →
  export_schemas conn uuid4 include_views schemas st = Ok st.
Proof.
  revert st. induction schemas as [|schema schemas IH]; intros st H; [done|].
  simpl. rewrite H by (apply elem_of_cons; by left). simpl.
  apply IH. intros s Hs. apply H, elem_of_cons. by right.
Qed.

(** X3: a run in which every schema has an empty table listing (in
    particular a run over no schema) returns the empty document, whatever
    the other catalog queries would answer or raise. *)
Theorem export_of_empty_listings
    (conn : connection) (uuid4 : nat -> string) (schemas : list string)
    (include_views : bool) :
  (∀ schema, schema ∈ schemas →
     _get_tables_and_views conn schema include_views = Ok []) →
  snowflake_export conn uuid4 schemas include_views = Ok empty_document.
Proof.
  intros H. unfold snowflake_export.
  by rewrite export_schemas_empty_listings.
Qed.

Lemma export_of_empty_listings_witness :
  execute_tuples unreachable (SelectColumns "PUBLIC") =
    Raise (DatabaseError Connectivity) ∧
  snowflake_export unreachable numbered ["PUBLIC"; "SALES"] true =
    Ok empty_document.
Proof.
  split; [reflexivity|].
  apply (export_of_empty_listings unreachable numbered ["PUBLIC"; "SALES"]
           true).
  intros schema _. reflexivity.
Defined.

Lemma add_column_keys_order uuid4 tables st row :
  wf_state st →
  odict_keys (grouped_rows (add_column uuid4 tables st row)) =
  if bool_decide (row_table_name row ∈ tables)
  then append_new (odict_keys (grouped_rows st)) (row_table_name row)
  else odict_keys (grouped_rows st).
Proof.
  intros (Hkeys & Hnd & Hne). unfold append_new.
  destruct (bool_decide_reflect (row_table_name row ∈ tables)) as [Ht|Ht];
    [|by rewrite add_column_skip].
  destruct (bool_decide_reflect
              (row_table_name row ∈ odict_keys (grouped_rows st)))
    as [Hk|Hk].
  - rewrite add_column_known by done. simpl. by rewrite odict_keys_alter.
  - rewrite add_column_new by (by rewrite <- ?Hkeys). simpl.
    by rewrite odict_keys_app.
Qed.

Lemma columns_keys_order uuid4 tables rows st :
  wf_state st →
  odict_keys (grouped_rows (fold_left (add_column uuid4 tables) rows st)) =
  fold_left append_new
    (List.filter (fun name => bool_decide (name ∈ tables))
       (map row_table_name rows))
    (odict_keys (grouped_rows st)).
Proof.
  revert st. induction rows as [|row rows IH]; intros st Hwf; [done|].
  simpl. rewrite IH by (by apply add_column_wf).
  rewrite add_column_keys_order by done.
  by destruct (bool_decide (row_table_name row ∈ tables)).
Qed.

Lemma passes_keys_order conn uuid4 include_views schemas st :
  wf_state st →
  odict_keys
    (grouped_rows
       (fold_left (schema_pass conn uuid4 include_views) schemas st)) =
  fold_left append_new
    (concat (map (scoped_table_names conn include_views) schemas))
    (odict_keys (grouped_rows st)).
Proof.
  revert st. induction schemas as [|schema schemas IH]; intros st Hwf;
    [done|].
  simpl. rewrite IH by (by apply schema_pass_wf).
  rewrite fold_left_app. f_equal.
  rewrite pass_keys_eq. by apply columns_keys_order.
Qed.

(** X4: the entities of the document come in the order in which the run
    first meets a column row of an in-scope table of that name, schema after
    schema. *)
Theorem entities_in_first_occurrence_order
    (conn : connection) (uuid4 : nat -> string) (schemas : list string)
    (include_views : bool) (doc : model) :
  snowflake_export conn uuid4 schemas include_views = Ok doc →
  entity_names doc =
  first_occurrences
    (concat (map (scoped_table_names conn include_views) schemas)).
Proof.
  intros ->%snowflake_export_ok. rewrite document_names.
  by rewrite passes_keys_order by apply initial_state_wf.
Qed.

Lemma entities_in_first_occurrence_order_witness :
  ∃ doc,
    snowflake_export shop numbered ["PUBLIC"] true = Ok doc ∧
    scoped_table_names shop true "PUBLIC" = ["CUSTOMERS"; "ORDERS"; "ORDERS"] ∧
    entity_names doc = ["CUSTOMERS"; "ORDERS"].
Proof.
  eexists. split; [vm_compute; reflexivity|]. split; [reflexivity|].
  match goal with
  | |- entity_names ?d = _ =>
      rewrite (entities_in_first_occurrence_order shop numbered ["PUBLIC"]
                 true d eq_refl)
  end.
  reflexivity.
Defined.

Lemma passes_flags conn uuid4 include_views schemas st name a :
  wf_state st →
  a ∈ attributes_of name
        (fold_left (schema_pass conn uuid4 include_views) schemas st) →
  attr_FK a = true →
  a ∈ attributes_of name st ∨
  flag_justified conn include_views schemas name (attr_name a).
Proof.
  revert st. induction schemas as [|schema schemas IH]; intros st Hwf Ha Hflag;
    simpl in *; [by left|].
  pose proof (schema_pass_wf conn uuid4 include_views st schema Hwf) as Hwf'.
  destruct (IH _ Hwf' Ha Hflag) as [Ha'|(s & fk & f & Hs & Hrest)].
  2:{ right. exists s, fk, f. split; [|done]. apply elem_of_cons. by right. }
  rewrite pass_attributes in Ha' by done.
  apply list_elem_of_In, in_map_iff in Ha' as (a' & <- & Ha').
  apply mark_all_flagged in Hflag as [Hflag|(fk & Hfk & Hm)].
  - rewrite mark_all_unflagged by done.
    apply list_elem_of_In, elem_of_app in Ha' as [Ha'|Ha']; [by left|].
    exfalso. destruct (bool_decide _); [|by apply elem_of_nil in Ha'].
    apply list_elem_of_In, in_map_iff in Ha' as (row & <- & _).
    discriminate Hflag.
  - right. apply fk_row_marks_true in Hm as (f & ? & ? & ? & ? & ?).
    exists schema, fk, f. rewrite mark_all_name. split_and!; try done.
    apply elem_of_cons. by left.
Qed.

(** X5: an FK flag of the document is never spurious. Every attribute with
    the flag set is named, with its entity as the referencing table, by a
    raw foreign-key row of some schema of the run whose two tables are in
    that schema's scope. *)
Theorem fk_flag_has_foreign_key_row
    (conn : connection) (uuid4 : nat -> string) (schemas : list string)
    (include_views : bool) (doc : model) (e : entity) (a : attribute) :
  snowflake_export conn uuid4 schemas include_views = Ok doc →
  e ∈ entities doc → a ∈ ent_attributes e → attr_FK a = true →
  flag_justified conn include_views schemas (ent_name e) (attr_name a).
Proof.
  intros ->%snowflake_export_ok He Ha Hflag.
  rewrite (document_attributes _ e) in Ha by (done || apply final_wf).
  destruct (passes_flags conn uuid4 include_views schemas initial_state
              (ent_name e) a initial_state_wf Ha Hflag) as [Hnil|H]; [|done].
  by apply elem_of_nil in Hnil.
Qed.

Lemma fk_flag_has_foreign_key_row_witness :
  flag_justified shop true ["PUBLIC"] "ORDERS" "customer_id".
Proof.
  apply (fk_flag_has_foreign_key_row shop numbered ["PUBLIC"] true
           (document_of (schema_pass shop numbered true initial_state
                           "PUBLIC"))
           {| ent_id := "1"; ent_name := "ORDERS";
              ent_attributes :=
                [ {| attr_name := "id"; attr_PK := true; attr_FK := false;
                     attr_DATA_TYPE := "NUMBER" |};
                  {| attr_name := "customer_id"; attr_PK := false;
                     attr_FK := true; attr_DATA_TYPE := "NUMBER" |} ] |}
           {| attr_name := "customer_id"; attr_PK := false;
              attr_FK := true; attr_DATA_TYPE := "NUMBER" |}).
  - vm_compute. reflexivity.
  - apply list_elem_of_In. right. left. vm_compute. reflexivity.
  - apply list_elem_of_In. right. left. reflexivity.
  - reflexivity.
Defined.

(** X6: raw foreign-key rows are used as the query returned them unless
    they come from the third method. When no raw row of the run has all six
    lower-case keys (as with rows keyed by the upper-case aliases of the
    first two queries), every row is dropped: the document has no
    relationship and no FK flag. *)
Theorem unreadable_rows_add_nothing
    (conn : connection) (uuid4 : nat -> string) (schemas : list string)
    (include_views : bool) (doc : model) :
  (∀ schema fk, schema ∈ schemas → fk ∈ _get_foreign_keys conn schema →
                read_fk fk = None) →
  snowflake_export conn uuid4 schemas include_views = Ok doc →
  relationships doc = [] ∧
  ∀ e a, e ∈ entities doc → a ∈ ent_attributes e → attr_FK a = false.
Proof.
  intros Hnone ->%snowflake_export_ok. split.
  - simpl. destruct (rels _) as [|r rs] eqn:Hrels; [done|]. exfalso.
    assert (r ∈ rels (fold_left (schema_pass conn uuid4 include_views)
                        schemas initial_state)) as Hr
      by (rewrite Hrels; apply elem_of_cons; by left).
    apply final_rels in Hr as (s & fk & f & ? & ? & Hs & Hfk & Hr & _).
    rewrite (Hnone s fk) in Hr by done. discriminate Hr.
  - intros e a He Ha. destruct (attr_FK a) eqn:Hflag; [|done]. exfalso.
    rewrite (document_attributes _ e) in Ha by (done || apply final_wf).
    destruct (passes_flags conn uuid4 include_views schemas initial_state
                (ent_name e) a initial_state_wf Ha Hflag)
      as [Hnil|(s & fk & f & Hs & Hfk & Hr & _)].
    + by apply elem_of_nil in Hnil.
    + rewrite (Hnone s fk) in Hr by done. discriminate Hr.
Qed.

Lemma unreadable_rows_add_nothing_witness :
  _get_foreign_keys_traced shop_referential "PUBLIC" =
    ([0], [referential_row]) ∧
  ∃ doc,
    snowflake_export shop_referential numbered ["PUBLIC"] true = Ok doc ∧
    entity_names doc = ["CUSTOMERS"; "ORDERS"] ∧
    relationships doc = [] ∧
    ∀ e a, e ∈ entities doc → a ∈ ent_attributes e → attr_FK a = false.
Proof.
  split; [reflexivity|].
  eexists. split; [vm_compute; reflexivity|]. split; [reflexivity|].
  match goal with
  | |- relationships ?d = [] ∧ _ =>
      apply (unreadable_rows_add_nothing shop_referential numbered
               ["PUBLIC"] true d)
  end.
  - intros schema fk _ Hfk. apply list_elem_of_In in Hfk.
    destruct Hfk as [<-|[]]. reflexivity.
  - vm_compute. reflexivity.
Defined.

Lemma add_column_ids_generated uuid4 tables st row :
  wf_state st → ids_generated uuid4 st →
  ids_generated uuid4 (add_column uuid4 tables st row).
Proof.
  intros (Hkeys & Hnd & Hne) Hids. unfold ids_generated in *.
  destruct (decide (row_table_name row ∈ tables)) as [Ht|Ht];
    [|by rewrite add_column_skip].
  destruct (decide (row_table_name row ∈ odict_keys (grouped_rows st)))
    as [Hk|Hk].
  - by rewrite add_column_known.
  - rewrite add_column_new by (by rewrite <- ?Hkeys).
    cbn [entity_ids uuid_count].
    rewrite map_app, Hids, seq_S, map_app. done.
Qed.

Lemma process_fk_count tables st fk :
  uuid_count (process_fk tables st fk) = uuid_count st.
Proof. unfold process_fk. by repeat case_match. Qed.

Lemma passes_ids_generated conn uuid4 include_views schemas st :
  wf_state st → ids_generated uuid4 st →
  ids_generated uuid4
    (fold_left (schema_pass conn uuid4 include_views) schemas st).
Proof.
  revert st. induction schemas as [|schema schemas IH]; intros st Hwf Hids;
    [done|].
  simpl. apply IH; [by apply schema_pass_wf|].
  unfold schema_pass.
  generalize (_get_foreign_keys conn schema).
  generalize (schema_tables conn include_views schema). intros tables fks.
  assert (wf_state (fold_left (add_column uuid4 tables)
                      (schema_rows conn schema) st) ∧
          ids_generated uuid4
            (fold_left (add_column uuid4 tables) (schema_rows conn schema) st))
    as [Hwf1 Hids1].
  { generalize (schema_rows conn schema). intros rows.
    revert st Hwf Hids. induction rows as [|row rows IHr]; intros st Hwf Hids;
      [done|].
    simpl. apply IHr; [by apply add_column_wf|by apply add_column_ids_generated]. }
  revert Hids1. generalize (fold_left (add_column uuid4 tables)
                              (schema_rows conn schema) st).
  induction fks as [|fk fks IHf]; intros st1 Hids1; [done|].
  simpl. apply IHf. unfold ids_generated.
  by rewrite process_fk_ids, process_fk_count.
Qed.

Lemma odict_lookup_keys_values (d : odict string) :
  NoDup (odict_keys d) →
  map (fun k => default "" (odict_lookup k d)) (odict_keys d) = map snd d.
Proof.
  induction d as [|[k v] d IH]; intros Hnd; [done|].
  apply NoDup_cons in Hnd as [Hk Hnd]. csimpl.
  rewrite decide_True by done. simpl. f_equal.
  rewrite <- IH by done. apply map_ext_in. intros k' Hk'.
  apply list_elem_of_In in Hk'.
  rewrite decide_False; [done|]. intros ->. by apply Hk.
Qed.

(** X7: the entities carry the generated identifiers in the order of
    generation, one call of [uuid4] per entity: the i-th entity of the
    document has the i-th identifier of the run. Hence the identifiers of a
    document are pairwise distinct whenever the generator does not repeat
    itself. *)
Theorem entity_ids_in_generation_order
    (conn : connection) (uuid4 : nat -> string) (schemas : list string)
    (include_views : bool) (doc : model) :
  snowflake_export conn uuid4 schemas include_views = Ok doc →
  map ent_id (entities doc) = map uuid4 (seq 0 (length (entities doc))) ∧
  ((∀ i j, uuid4 i = uuid4 j → i = j) → NoDup (map ent_id (entities doc))).
Proof.
  intros ->%snowflake_export_ok.
  pose proof (final_wf conn uuid4 include_views schemas)
    as (Hkeys & Hnd & _).
  pose proof (passes_ids_generated conn uuid4 include_views schemas
                initial_state initial_state_wf eq_refl) as Hids.
  set (st := fold_left _ _ _) in *. unfold ids_generated in Hids.
  assert (map ent_id (entities (document_of st)) = map snd (entity_ids st))
    as Hent.
  { rewrite <- odict_lookup_keys_values by (by rewrite <- Hkeys).
    rewrite <- Hkeys. unfold document_of, odict_keys. simpl.
    clear Hkeys Hnd Hids.
    induction (grouped_rows st) as [|[k v] d IH]; [done|].
    csimpl. by rewrite IH. }
  assert (length (entities (document_of st)) = uuid_count st) as Hlen.
  { rewrite <- (length_map ent_id), Hent, Hids, length_map.
    apply length_seq. }
  split.
  - by rewrite Hlen, Hent.
  - intros Hinj. rewrite Hent, Hids.
    apply (NoDup_fmap_2_strong uuid4); [|apply NoDup_seq].
    intros i j _ _. apply Hinj.
Qed.

Lemma entity_ids_in_generation_order_witness :
  ∃ doc,
    snowflake_export shop lettered ["PUBLIC"] true = Ok doc ∧
    map ent_id (entities doc) = ["a"; "b"].
Proof.
  eexists. split; [vm_compute; reflexivity|].
  match goal with
  | |- map ent_id (entities ?d) = _ =>
      destruct (entity_ids_in_generation_order shop lettered ["PUBLIC"]
                  true d eq_refl) as [Hids _]
  end.
  rewrite Hids. reflexivity.
Defined.

(** * Further properties of the column and primary-key queries *)

Lemma pk_key_column_usage_cons row rows pks :
  pk_key_column_usage (row :: rows) pks =
  match pk_triple row with
  | Some key => pk_key_column_usage rows ({[ key ]} ∪ pks)
  | None => pks
  end.
Proof.
  unfold pk_triple. simpl.
  destruct (row !! "TABLE_SCHEMA"), (row !! "TABLE_NAME"),
    (row !! "COLUMN_NAME"); done.
Qed.

Lemma pk_key_column_usage_elem rows pks key :
  key ∈ pk_key_column_usage rows pks ↔
  key ∈ pks ∨ read_before_failure rows key.
Proof.
  revert pks. induction rows as [|row rows IH]; intros pks.
  - simpl. split; [by left|]. intros [?|(before & r & after & Heq & _)];
      [done|]. by destruct before.
  - rewrite pk_key_column_usage_cons.
    destruct (pk_triple row) as [key0|] eqn:Hrow.
    + rewrite IH, elem_of_union, elem_of_singleton. split.
      * intros [[->|?]|(before & r & after & -> & Hb & Hr)].
        -- right. by exists [], row, rows.
        -- by left.
        -- right. exists (row :: before), r, after. split; [done|].
           split; [|done]. apply Forall_cons. split; [by rewrite Hrow|done].
      * intros [?|(before & r & after & Heq & Hb & Hr)]; [by left; right|].
        destruct before as [|r0 before]; simpl in Heq.
        -- injection Heq as <- <-. left. left. congruence.
        -- injection Heq as <- ->. right.
           apply Forall_cons in Hb as [_ Hb]. by exists before, r, after.
    + split; [by left|].
      intros [?|(before & r & after & Heq & Hb & Hr)]; [done|]. exfalso.
      destruct before as [|r0 before]; simpl in Heq.
      * injection Heq as <- <-. congruence.
      * injection Heq as <- ->. apply Forall_cons in Hb as [[? Hs] _].
        congruence.
Qed.

Lemma pk_show_primary_keys_elem rows pks key :
  key ∈ pk_show_primary_keys rows pks ↔
  key ∈ pks ∨ ∃ row, row ∈ rows ∧ show_triple row = key.
Proof.
  unfold pk_show_primary_keys. revert pks.
  induction rows as [|row rows IH]; intros pks; simpl.
  - split; [by left|]. intros [?|(r & Hr & _)]; [done|].
    by apply elem_of_nil in Hr.
  - rewrite IH, elem_of_union, elem_of_singleton. fold (show_triple row).
    split.
    + intros [[->|?]|(r & Hr & ?)].
      * right. exists row. split; [|done]. apply elem_of_cons. by left.
      * by left.
      * right. exists r. split; [|done]. apply elem_of_cons. by right.
    + intros [?|(r & Hr & Heq)]; [by left; right|].
      apply elem_of_cons in Hr as [->|Hr]; [by left; left|].
      right. by exists r.
Qed.

(** X8: [_query_schema_data] raises exactly when the cursor of the column
    query or the column query itself raises: no failure of the primary-key
    queries is propagated. When it returns, it returns one row per catalog
    row, in the catalog's order, with the catalog's schema, table, column
    and data type, and [is_pk] tells whether the (schema, table, column)
    triple is among the primary keys found. *)
Theorem schema_data_follows_column_catalog
    (conn : connection) (schema_name : string) :
  (∀ e,
     _query_schema_data conn schema_name = Raise e ↔
     cursor conn = Raise e ∨
     (cursor conn = Ok tt ∧
      execute_tuples conn (SelectColumns schema_name) = Raise e)) ∧
  (∀ rows,
     _query_schema_data conn schema_name = Ok rows →
     ∃ columns,
       execute_tuples conn (SelectColumns schema_name) = Ok columns ∧
       map (fun r => (row_table_schema r, row_table_name r,
                      row_column_name r, row_data_type r)) rows =
       map (fun c => (col_TABLE_SCHEMA c, col_TABLE_NAME c,
                      col_COLUMN_NAME c, col_DATA_TYPE c)) columns ∧
       ∀ r, r ∈ rows →
         (row_is_pk r = true ↔
          (row_table_schema r, row_table_name r, row_column_name r)
            ∈ query_primary_keys conn schema_name)).
Proof.
  unfold _query_schema_data. split.
  - intros e. destruct (cursor conn) as [[]|e1]; simpl.
    + destruct (execute_tuples conn (SelectColumns schema_name)) as [cols|e2];
        simpl.
      * split; [done|]. by intros [?|[_ ?]].
      * split; [intros [= ->]; by right|]. intros [?|[_ [= ->]]]; done.
    + split; [intros [= ->]; by left|]. intros [[= ->]|[? _]]; done.
  - intros rows. destruct (cursor conn) as [[]|e1]; simpl; [|done].
    destruct (execute_tuples conn (SelectColumns schema_name)) as [cols|e2];
      simpl; [|done].
    intros [= <-]. exists cols. split; [done|]. split.
    + by rewrite map_map.
    + intros r (c & <- & _)%list_elem_of_In%in_map_iff. simpl.
      apply bool_decide_eq_true.
Qed.

Lemma query_primary_keys_usage conn schema_name row rows :
  cursor conn = Ok tt →
  execute conn (SelectKeyColumnUsage schema_name) = Ok (row :: rows) →
  is_Some (pk_triple row) →
  query_primary_keys conn schema_name =
  pk_key_column_usage (row :: rows) ∅.
Proof.
  intros Hc Hex [key Hkey]. unfold query_primary_keys. rewrite Hc, Hex.
  rewrite decide_False; [done|]. intros Hempty.
  assert (key ∈ pk_key_column_usage (row :: rows) ∅) as Hin.
  { apply pk_key_column_usage_elem. right. by exists [], row, rows. }
  rewrite Hempty in Hin. by apply elem_of_empty in Hin.
Qed.

Lemma query_primary_keys_no_usage conn schema_name :
  cursor conn = Ok tt →
  no_key_from_usage conn schema_name →
  query_primary_keys conn schema_name =
  match execute conn (ShowPrimaryKeys schema_name) with
  | Ok rows => pk_show_primary_keys rows ∅
  | Raise _ => ∅
  end.
Proof.
  intros Hc Hno. unfold query_primary_keys, no_key_from_usage in *.
  rewrite Hc.
  destruct (execute conn (SelectKeyColumnUsage schema_name))
    as [[|row rows]|e]; try by rewrite decide_True.
  rewrite pk_key_column_usage_cons, Hno. by rewrite decide_True.
Qed.

(** X9: when the first row that [KEY_COLUMN_USAGE] returns is readable, the
    primary keys are those of its rows up to the first row that lacks a
    column: a row after an unreadable one contributes nothing, and
    [SHOW PRIMARY KEYS] is not consulted. *)
Theorem primary_keys_from_key_column_usage
    (conn : connection) (schema_name : string) (row : dict_row)
    (rows : list dict_row) (key : string * string * string) :
  cursor conn = Ok tt →
  execute conn (SelectKeyColumnUsage schema_name) = Ok (row :: rows) →
  is_Some (pk_triple row) →
  key ∈ query_primary_keys conn schema_name ↔
  read_before_failure (row :: rows) key.
Proof.
  intros Hc Hex Hrow.
  rewrite (query_primary_keys_usage conn schema_name row rows) by done.
  rewrite pk_key_column_usage_elem. split; [|by right].
  intros [Hempty|?]; [|done]. by apply elem_of_empty in Hempty.
Qed.

Lemma primary_keys_from_key_column_usage_witness :
  ("PUBLIC", "ORDERS", "id") ∈ query_primary_keys shop "PUBLIC" ↔
  read_before_failure shop_primary_keys ("PUBLIC", "ORDERS", "id").
Proof.
  apply (primary_keys_from_key_column_usage shop "PUBLIC"
           (primary_key "PUBLIC" "CUSTOMERS" "id")
           [primary_key "PUBLIC" "ORDERS" "id"]).
  - reflexivity.
  - reflexivity.
  - eexists. reflexivity.
Defined.

(** X10: when the first method yields no key (it raises, returns no row, or
    its first row is unreadable), the primary keys are those of the rows of
    [SHOW PRIMARY KEYS], a missing column of a row reading as the empty
    string; when that query raises too there is no primary key, and no
    exception. *)
Theorem primary_keys_fall_back_to_show
    (conn : connection) (schema_name : string) :
  cursor conn = Ok tt →
  no_key_from_usage conn schema_name →
  (∀ rows key,
     execute conn (ShowPrimaryKeys schema_name) = Ok rows →
     (key ∈ query_primary_keys conn schema_name ↔
      ∃ row, row ∈ rows ∧ show_triple row = key)) ∧
  (∀ e,
     execute conn (ShowPrimaryKeys schema_name) = Raise e →
     query_primary_keys conn schema_name = ∅).
Proof.
  intros Hc Hno.
  rewrite (query_primary_keys_no_usage conn schema_name) by done. split.
  - intros rows key ->. rewrite pk_show_primary_keys_elem.
    split; [|by right]. intros [Hempty|?]; [|done].
    by apply elem_of_empty in Hempty.
  - by intros e ->.
Qed.

Lemma primary_keys_fall_back_to_show_witness :
  ∃ rows,
    _query_schema_data shop_show_primary_keys "PUBLIC" = Ok rows ∧
    map (fun r => (row_table_name r, row_column_name r, row_is_pk r)) rows =
      [("CUSTOMERS", "id", false); ("ORDERS", "id", true);
       ("ORDERS", "customer_id", false)] ∧
    (("PUBLIC", "ORDERS", "id")
       ∈ query_primary_keys shop_show_primary_keys "PUBLIC" ↔
     ∃ row,
       row ∈ [ <["schema_name" := "PUBLIC"]>
               (<["table_name" := "ORDERS"]> {[ "column_name" := "id" ]}) ] ∧
       show_triple row = ("PUBLIC", "ORDERS", "id")).
Proof.
  eexists. split; [vm_compute; reflexivity|]. split; [reflexivity|].
  destruct (primary_keys_fall_back_to_show shop_show_primary_keys "PUBLIC")
    as [Hshow _].
  - reflexivity.
  - exact I.
  - apply Hshow. reflexivity.
Defined.

Lemma schema_data_follows_column_catalog_witness :
  ∃ rows,
    _query_schema_data shop "PUBLIC" = Ok rows ∧
    map (fun r => (row_table_schema r, row_table_name r,
                   row_column_name r, row_data_type r)) rows =
    map (fun c => (col_TABLE_SCHEMA c, col_TABLE_NAME c,
                   col_COLUMN_NAME c, col_DATA_TYPE c)) shop_columns.
Proof.
  eexists. split; [vm_compute; reflexivity|].
  match goal with
  | |- map _ ?rows = _ =>
      destruct (schema_data_follows_column_catalog shop "PUBLIC") as [_ H];
      destruct (H rows) as (columns & Hcols & Hmap & _)
  end.
  - vm_compute. reflexivity.
  - injection Hcols as <-. exact Hmap.
Defined.

(** * Further properties of the foreign-key retrieval *)

Lemma read_remapped row :
  read_fk (remap_imported_key row) =
  Some {| fk_schema := either_case row "FK_DATABASE_NAME" "fk_schema_name";
          fk_table := either_case row "FK_TABLE_NAME" "fk_table_name";
          fk_column := either_case row "FK_COLUMN_NAME" "fk_column_name";
          pk_schema := either_case row "PK_DATABASE_NAME" "pk_schema_name";
          pk_table := either_case row "PK_TABLE_NAME" "pk_table_name";
          pk_column := either_case row "PK_COLUMN_NAME" "pk_column_name" |}.
Proof. unfold read_fk, remap_imported_key, either_case. by simplify_map_eq. Qed.

Lemma remap_imported_key_idempotent row :
  remap_imported_key (remap_imported_key row) = remap_imported_key row.
Proof.
  cbv beta zeta delta [remap_imported_key].
  generalize (dict_get_default row "FK_DATABASE_NAME"
                (dict_get_default row "fk_schema_name" "")),
             (dict_get_default row "FK_TABLE_NAME"
                (dict_get_default row "fk_table_name" "")),
             (dict_get_default row "FK_COLUMN_NAME"
                (dict_get_default row "fk_column_name" "")),
             (dict_get_default row "PK_DATABASE_NAME"
                (dict_get_default row "pk_schema_name" "")),
             (dict_get_default row "PK_TABLE_NAME"
                (dict_get_default row "pk_table_name" "")),
             (dict_get_default row "PK_COLUMN_NAME"
                (dict_get_default row "pk_column_name" "")).
  intros v1 v2 v3 v4 v5 v6. unfold dict_get_default.
  by simplify_map_eq.
Qed.

(** X11: when the first two foreign-key methods yield no row, every row that
    the retrieval returns is readable by the export: it has all six
    canonical keys, each read from the upper-case column of the
    [SHOW IMPORTED KEYS] row, else from the lower-case one, else empty, and
    remapping it again changes nothing. *)
Theorem imported_keys_are_readable
    (conn : connection) (schema : string) (fk : dict_row) :
  attempt conn (SelectReferentialConstraints schema) = [] →
  attempt conn (SelectTableConstraints schema) = [] →
  fk ∈ _get_foreign_keys conn schema →
  ∃ row f,
    row ∈ attempt conn (ShowImportedKeys schema) ∧
    read_fk fk = Some f ∧
    fk_table f = either_case row "FK_TABLE_NAME" "fk_table_name" ∧
    fk_column f = either_case row "FK_COLUMN_NAME" "fk_column_name" ∧
    pk_table f = either_case row "PK_TABLE_NAME" "pk_table_name" ∧
    pk_column f = either_case row "PK_COLUMN_NAME" "pk_column_name" ∧
    remap_imported_key fk = fk.
Proof.
  intros H1 H2 Hfk. unfold _get_foreign_keys in Hfk.
  rewrite try_methods_three, H1, H2 in Hfk. simpl in Hfk.
  apply list_elem_of_In, in_map_iff in Hfk as (row & <- & Hrow).
  eexists row, _. split; [by apply list_elem_of_In|].
  split; [apply read_remapped|]. simpl.
  split_and!; first [reflexivity|apply remap_imported_key_idempotent].
Qed.

Lemma imported_keys_are_readable_witness :
  ∃ f,
    read_fk (imported_key_row "ORDERS" "customer_id" "CUSTOMERS" "id")
      = Some f ∧
    fk_table f = "ORDERS" ∧ pk_table f = "CUSTOMERS".
Proof.
  destruct (imported_keys_are_readable shop "PUBLIC"
              (imported_key_row "ORDERS" "customer_id" "CUSTOMERS" "id"))
    as (row & f & Hrow & Hread & Hft & _ & Hpt & _).
  - reflexivity.
  - reflexivity.
  - apply list_elem_of_In. left. vm_compute. reflexivity.
  - exists f. split; [exact Hread|].
    apply list_elem_of_In in Hrow. destruct Hrow as [<-|[]].
    split; [exact Hft|exact Hpt].
Defined.

(** * The account identifier of a Snowflake URL *)

Lemma append_nil (s : string) : EmptyString +:+ s = s.
Proof. reflexivity. Qed.

Lemma append_cons (c : ascii) (s1 s2 : string) :
  String c s1 +:+ s2 = String c (s1 +:+ s2).
Proof. reflexivity. Qed.

Lemma strip_prefix_app lit s : strip_prefix lit (lit +:+ s) = Some s.
Proof.
  induction lit as [|c lit IH]; [by destruct s|].
  rewrite append_cons. simpl. by rewrite decide_True.
Qed.

Lemma strip_prefix_Some lit s r : strip_prefix lit s = Some r → s = lit +:+ r.
Proof.
  revert s. induction lit as [|c lit IH]; intros s; simpl.
  - destruct s; intros [= <-]; reflexivity.
  - destruct s as [|c' s]; [done|].
    destruct (decide (c = c')) as [->|]; [|done].
    intros H. by rewrite append_cons, (IH s H).
Qed.

Lemma count_dots_app s1 s2 :
  count_dots (s1 +:+ s2) = count_dots s1 + count_dots s2.
Proof.
  induction s1 as [|c s1 IH]; [done|].
  rewrite append_cons. simpl. rewrite IH. lia.
Qed.

Lemma span_no_dot_spec s seg rest :
  span_no_dot s = (seg, rest) → s = seg +:+ rest ∧ count_dots seg = 0.
Proof.
  revert seg rest. induction s as [|c s IH]; intros seg rest; simpl.
  - by intros [= <- <-].
  - destruct (decide (c = dot)) as [->|Hc]; [by intros [= <- <-]|].
    destruct (span_no_dot s) as [seg' rest'].
    intros [= <- <-]. destruct (IH seg' rest' eq_refl) as [-> Hseg].
    split; [done|]. cbn [count_dots]. by destruct (decide (c = dot)).
Qed.

Lemma span_no_dot_app a r :
  count_dots a = 0 → span_no_dot (a +:+ String dot r) = (a, String dot r).
Proof.
  induction a as [|c a IH]; intros Ha.
  - rewrite append_nil. simpl. by destruct (decide (dot = dot)).
  - rewrite append_cons. simpl in *.
    destruct (decide (c = dot)); [done|]. by rewrite IH.
Qed.

Lemma segment_app a r :
  count_dots a = 0 → a ≠ EmptyString →
  segment (a +:+ "." +:+ r) = Some (a, "." +:+ r).
Proof.
  intros Ha Hne. unfold segment.
  change ("." +:+ r) with (String dot r).
  rewrite span_no_dot_app by done. by destruct a.
Qed.

Lemma segment_Some s seg rest :
  segment s = Some (seg, rest) →
  s = seg +:+ rest ∧ count_dots seg = 0 ∧ seg ≠ EmptyString.
Proof.
  unfold segment. destruct (span_no_dot s) as [seg' rest'] eqn:Hspan.
  apply span_no_dot_spec in Hspan as [-> Hseg].
  destruct seg' as [|c seg']; [done|]. intros [= <- <-]. done.
Qed.

Lemma match_account_url_shape a b c rest :
  count_dots a = 0 → count_dots b = 0 → count_dots c = 0 →
  a ≠ EmptyString → b ≠ EmptyString → c ≠ EmptyString →
  ∀ scheme, scheme = "http" ∨ scheme = "https" →
    match_account_url
      (scheme +:+ "://" +:+ a +:+ "." +:+ b +:+ "." +:+ c
         +:+ ".snowflakecomputing.com" +:+ rest) =
    Some (a +:+ "." +:+ b +:+ "." +:+ c).
Proof.
  intros Ha Hb Hc Hna Hnb Hnc.
  assert (∀ tail,
    (s ← strip_prefix "://" ("://" +:+ a +:+ "." +:+ b +:+ "." +:+ c
                               +:+ ".snowflakecomputing.com" +:+ tail);
     '(a, s) ← segment s;
     s ← strip_prefix "." s;
     '(b, s) ← segment s;
     s ← strip_prefix "." s;
     '(c, s) ← segment s;
     _ ← strip_prefix ".snowflakecomputing.com" s;
     Some (a +:+ "." +:+ b +:+ "." +:+ c)) =
    Some (a +:+ "." +:+ b +:+ "." +:+ c)) as Hrest.
  { intros tail. rewrite strip_prefix_app. cbn [mbind option_bind].
    rewrite segment_app by done. cbn [mbind option_bind].
    rewrite strip_prefix_app. cbn [mbind option_bind].
    rewrite segment_app by done. cbn [mbind option_bind].
    rewrite strip_prefix_app. cbn [mbind option_bind].
    change (".snowflakecomputing.com" +:+ tail)
      with ("." +:+ "snowflakecomputing.com" +:+ tail).
    rewrite segment_app by done. cbn [mbind option_bind].
    change ("." +:+ "snowflakecomputing.com" +:+ tail)
      with (".snowflakecomputing.com" +:+ tail).
    by rewrite strip_prefix_app. }
  intros scheme [->| ->]; unfold match_account_url.
  - rewrite strip_prefix_app. cbn [mbind option_bind].
    replace (strip_prefix "s" _) with (@None string) by done.
    apply Hrest.
  - change ("https" +:+ "://" +:+ a +:+ "." +:+ b +:+ "." +:+ c
              +:+ ".snowflakecomputing.com" +:+ rest)
      with ("http" +:+ "s" +:+ "://" +:+ a +:+ "." +:+ b +:+ "." +:+ c
              +:+ ".snowflakecomputing.com" +:+ rest).
    rewrite strip_prefix_app. cbn [mbind option_bind].
    rewrite strip_prefix_app. apply Hrest.
Qed.

Lemma match_account_url_Some url account :
  match_account_url url = Some account →
  count_dots account = 2 ∧ (4 ≤ count_dots url)%nat.
Proof.
  unfold match_account_url.
  destruct (strip_prefix "http" url) as [s0|] eqn:H0; [|done].
  cbn [mbind option_bind].
  assert (∃ s1, count_dots s1 = count_dots s0 ∧
                default s0 (strip_prefix "s" s0) = s1) as (s1 & Hs1 & ->).
  { destruct (strip_prefix "s" s0) as [s1|] eqn:Hs; simpl; [|by exists s0].
    exists s1. split; [|done]. apply strip_prefix_Some in Hs as ->.
    by rewrite count_dots_app. }
  destruct (strip_prefix "://" s1) as [s2|] eqn:H2; [|done].
  cbn [mbind option_bind].
  destruct (segment s2) as [[a s3]|] eqn:Ha; [|done].
  cbn [mbind option_bind].
  destruct (strip_prefix "." s3) as [s4|] eqn:H4; [|done].
  cbn [mbind option_bind].
  destruct (segment s4) as [[b s5]|] eqn:Hb; [|done].
  cbn [mbind option_bind].
  destruct (strip_prefix "." s5) as [s6|] eqn:H6; [|done].
  cbn [mbind option_bind].
  destruct (segment s6) as [[c s7]|] eqn:Hc; [|done].
  cbn [mbind option_bind].
  destruct (strip_prefix ".snowflakecomputing.com" s7) as [s8|] eqn:H8;
    [|done].
  cbn [mbind option_bind]. intros [= <-].
  apply strip_prefix_Some in H0, H2, H4, H6, H8.
  apply segment_Some in Ha as (Ha & Hda & _).
  apply segment_Some in Hb as (Hb & Hdb & _).
  apply segment_Some in Hc as (Hc & Hdc & _).
  apply (f_equal count_dots) in H0, H2, H4, H6, H8, Ha, Hb, Hc.
  rewrite !count_dots_app in *.
  change (count_dots ".") with 1 in *.
  change (count_dots "http") with 0 in *.
  change (count_dots "://") with 0 in *.
  change (count_dots ".snowflakecomputing.com") with 2 in *.
  lia.
Qed.

(** X12: the account identifier of a Snowflake URL. For a scheme [http] or
    [https] and three non-empty labels without a dot, the URL
    [scheme://a.b.c.snowflakecomputing.com] followed by anything (a path, a
    port) is reduced to [a.b.c]. *)
Theorem account_of_snowflake_url (scheme a b c rest : string) :
  scheme = "http" ∨ scheme = "https" →
  count_dots a = 0 → count_dots b = 0 → count_dots c = 0 →
  a ≠ EmptyString → b ≠ EmptyString → c ≠ EmptyString →
  extract_account_from_url
    (scheme +:+ "://" +:+ a +:+ "." +:+ b +:+ "." +:+ c
       +:+ ".snowflakecomputing.com" +:+ rest) =
  a +:+ "." +:+ b +:+ "." +:+ c.
Proof.
  intros Hscheme Ha Hb Hc Hna Hnb Hnc. unfold extract_account_from_url.
  by rewrite (match_account_url_shape a b c rest) by done.
Qed.

Lemma account_of_snowflake_url_witness :
  extract_account_from_url
    "https://nn73358.eu-north-1.aws.snowflakecomputing.com/console"
  = "nn73358.eu-north-1.aws".
Proof.
  apply (account_of_snowflake_url "https" "nn73358" "eu-north-1" "aws"
           "/console"); first [by right | reflexivity | discriminate].
Defined.

(** X13: extracting twice is extracting once: what
    [extract_account_from_url] returns is either its argument or an
    identifier with exactly two dots, which is never itself taken for a
    URL. *)
Theorem extract_account_idempotent (url : string) :
  (extract_account_from_url url = url ∨
   count_dots (extract_account_from_url url) = 2) ∧
  extract_account_from_url (extract_account_from_url url) =
  extract_account_from_url url.
Proof.
  unfold extract_account_from_url at 1 2 4 5.
  destruct (match_account_url url) as [account|] eqn:Hm.
  - apply match_account_url_Some in Hm as [Hdots _].
    split; [by right|]. unfold extract_account_from_url.
    destruct (match_account_url account) as [account'|] eqn:Hm'; [|done].
    apply match_account_url_Some in Hm' as [_ Hfour]. lia.
  - split; [by left|]. unfold extract_account_from_url. by rewrite Hm.
Qed.

(** X14: a string with fewer than four dots is returned as it is. A bare
    account identifier [a.b.c] is kept, and so is, scheme included, a URL
    with fewer than three labels before [.snowflakecomputing.com]. *)
Theorem short_host_is_kept (url : string) :
  (count_dots url < 4)%nat → extract_account_from_url url = url.
Proof.
  intros Hdots. unfold extract_account_from_url.
  destruct (match_account_url url) as [account|] eqn:Hm; [|done].
  apply match_account_url_Some in Hm as [_ Hfour]. lia.
Qed.

Lemma short_host_is_kept_witness :
  extract_account_from_url "https://xy12345.snowflakecomputing.com" =
    "https://xy12345.snowflakecomputing.com" ∧
  extract_account_from_url "xy12345.eu-west-1.aws" = "xy12345.eu-west-1.aws".
Proof.
  split; apply short_host_is_kept; vm_compute; lia.
Defined.

(** * Connecting to Snowflake *)

Lemma extract_account_of_url scheme a b c rest :
  scheme = "http" ∨ scheme = "https" →
  count_dots a = 0 → count_dots b = 0 → count_dots c = 0 →
  a ≠ EmptyString → b ≠ EmptyString → c ≠ EmptyString →
  extract_account_from_url
    (scheme +:+ "://" +:+ a +:+ "." +:+ b +:+ "." +:+ c
       +:+ ".snowflakecomputing.com" +:+ rest) =
  a +:+ "." +:+ b +:+ "." +:+ c.
Proof.
  intros Hscheme Ha Hb Hc Hna Hnb Hnc. unfold extract_account_from_url.
  by rewrite (match_account_url_shape a b c rest) by done.
Qed.

Lemma extract_account_short url :
  (count_dots url < 4)%nat → extract_account_from_url url = url.
Proof.
  intros Hdots. unfold extract_account_from_url.
  destruct (match_account_url url) as [account|] eqn:Hm; [|done].
  apply match_account_url_Some in Hm as [_ Hfour]. lia.
Qed.

(** X15: the library's [snowflake_connect] and the application's
    [connect_to_snowflake] call the connector with the same account, user,
    password, warehouse and database. The account is the PrivateLink URL as
    it is when the mode is "privatelink" and that URL is not empty, and the
    account extracted from the "account" setting otherwise; only the
    library passes the schema, INFORMATION_SCHEMA, and only the application
    a role. *)
Theorem connectors_agree
    (settings : gmap string string) (args' : connect_arguments) :
  connect_to_snowflake_arguments settings = Ok args' →
  ∃ args,
    snowflake_connect_arguments settings = Ok args ∧
    arg_account args = arg_account args' ∧
    arg_user args = arg_user args' ∧
    arg_password args = arg_password args' ∧
    arg_warehouse args = arg_warehouse args' ∧
    arg_database args = arg_database args' ∧
    arg_schema args = Some "INFORMATION_SCHEMA" ∧ arg_role args = None ∧
    arg_schema args' = None ∧ arg_role args' = settings !! "role" ∧
    (if uses_privatelink settings
     then settings !! "custom_url" = Some (arg_account args)
     else ∃ account, settings !! "account" = Some account ∧
                     arg_account args = extract_account_from_url account).
Proof.
  unfold connect_to_snowflake_arguments, snowflake_connect_arguments, getitem.
  destruct (uses_privatelink settings).
  - destruct (settings !! "custom_url") as [url|]; simpl; [|done].
    destruct (settings !! "user"); simpl; [|done].
    destruct (settings !! "password"); simpl; [|done].
    destruct (settings !! "warehouse"); simpl; [|done].
    destruct (settings !! "database"); simpl; [|done].
    destruct (settings !! "role"); simpl; [|done].
    intros [= <-]. eexists. split; [done|]. by split_and!.
  - destruct (settings !! "account") as [account|]; simpl; [|done].
    destruct (settings !! "user"); simpl; [|done].
    destruct (settings !! "password"); simpl; [|done].
    destruct (settings !! "warehouse"); simpl; [|done].
    destruct (settings !! "database"); simpl; [|done].
    destruct (settings !! "role"); simpl; [|done].
    intros [= <-]. eexists. split; [done|]. split_and!; try done.
    by exists account.
Qed.

Lemma connectors_agree_witness :
  ∃ args,
    snowflake_connect_arguments standard_settings = Ok args ∧
    arg_account args = "nn73358.eu-north-1.aws" ∧
    arg_schema args = Some "INFORMATION_SCHEMA".
Proof.
  destruct (connectors_agree standard_settings
              {| arg_user := "ANALYST"; arg_password := "secret";
                 arg_account := "nn73358.eu-north-1.aws";
                 arg_warehouse := "COMPUTE_WH"; arg_database := "SHOP";
                 arg_schema := None; arg_role := Some "PUBLIC" |})
    as (args & Hargs & Haccount & _ & _ & _ & _ & Hschema & _).
  - vm_compute. reflexivity.
  - exists args. split; [exact Hargs|]. split; [exact Haccount|exact Hschema].
Defined.

Lemma uses_privatelink_account settings account :
  uses_privatelink (<["account" := account]> settings) =
  uses_privatelink settings.
Proof. unfold uses_privatelink. by rewrite !lookup_insert_ne. Qed.

Lemma snowflake_connect_arguments_account settings account :
  uses_privatelink settings = false →
  snowflake_connect_arguments (<["account" := account]> settings) =
  (user <- getitem settings "user" ;;
   password <- getitem settings "password" ;;
   warehouse <- getitem settings "warehouse" ;;
   database <- getitem settings "database" ;;
   Ok {| arg_user := user; arg_password := password;
         arg_account := extract_account_from_url account;
         arg_warehouse := warehouse; arg_database := database;
         arg_schema := Some "INFORMATION_SCHEMA"; arg_role := None |}).
Proof.
  intros Hstd. unfold snowflake_connect_arguments, getitem.
  rewrite uses_privatelink_account, Hstd.
  rewrite lookup_insert_eq. simpl. by rewrite !lookup_insert_ne.
Qed.

(** X16: in standard mode the full URL of an account and its bare
    identifier connect alike. With the account given as
    [scheme://a.b.c.snowflakecomputing.com...] or as [a.b.c],
    [snowflake_connect] calls the connector with the same arguments, ends
    in the same way and leaves the same connection. *)
Theorem url_connects_like_identifier
    (connect : connect_arguments -> result connection)
    (settings : gmap string string) (current : option connection)
    (scheme a b c rest : string) :
  uses_privatelink settings = false →
  scheme = "http" ∨ scheme = "https" →
  count_dots a = 0 → count_dots b = 0 → count_dots c = 0 →
  a ≠ EmptyString → b ≠ EmptyString → c ≠ EmptyString →
  snowflake_connect connect
    (<["account" := scheme +:+ "://" +:+ a +:+ "." +:+ b +:+ "." +:+ c
                      +:+ ".snowflakecomputing.com" +:+ rest]> settings)
    current =
  snowflake_connect connect
    (<["account" := a +:+ "." +:+ b +:+ "." +:+ c]> settings) current.
Proof.
  intros Hstd Hscheme Ha Hb Hc Hna Hnb Hnc. unfold snowflake_connect.
  rewrite !snowflake_connect_arguments_account by done.
  rewrite extract_account_of_url by done.
  rewrite (extract_account_short (a +:+ "." +:+ b +:+ "." +:+ c)); [done|].
  rewrite !count_dots_app, Ha, Hb, Hc.
  change (count_dots ".") with 1. lia.
Qed.

Lemma url_connects_like_identifier_witness :
  snowflake_connect accepting_connector standard_settings None =
  snowflake_connect accepting_connector
    (<["account" := "nn73358.eu-north-1.aws"]> standard_settings) None.
Proof.
  assert (standard_settings =
          <["account" :=
              "https" +:+ "://" +:+ "nn73358" +:+ "." +:+ "eu-north-1" +:+ "."
                +:+ "aws" +:+ ".snowflakecomputing.com" +:+ ""]>
            standard_settings) as Heq by (vm_compute; reflexivity).
  rewrite Heq at 1.
  apply (url_connects_like_identifier accepting_connector standard_settings
           None "https" "nn73358" "eu-north-1" "aws" "");
    first [by right | reflexivity | discriminate].
Defined.

(** * Connecting to Ellie *)

Lemma models_url_Some settings :
  models_url (Some settings) =
  (organization <- getitem settings "organization" ;;
   api_version <- getitem settings "api_version" ;;
   token <- getitem settings "token" ;;
   Ok (models_endpoint organization api_version token)).
Proof. done. Qed.

Lemma ellie_connect_ok settings store d :
  store !! settings = Some d →
  ellie_connect settings store =
  Ok (<[settings :=
          <["api_version" := default "v1" (d !! "api_version")]> d]> store,
      Some settings).
Proof.
  intros Hd. unfold ellie_connect. rewrite Hd.
  destruct (d !! "api_version") as [v|] eqn:Hv; simpl; [|done].
  by rewrite (insert_id d), (insert_id store).
Qed.

(** X17: [ellie_connect] makes the caller's dictionary the settings of the
    client and completes it in place: the API version is "v1" unless the
    dictionary had one, every other setting and every other dictionary is
    untouched, and connecting again changes nothing. Afterwards the URL of
    an import can only fail for a missing organization or token. *)
Theorem ellie_connect_completes_settings
    (settings : loc) (store : settings_store) (d : gmap string string) :
  store !! settings = Some d →
  ∃ store' d',
    ellie_connect settings store = Ok (store', Some settings) ∧
    store' !! settings = Some d' ∧
    d' !! "api_version" = Some (default "v1" (d !! "api_version")) ∧
    (∀ k, k ≠ "api_version" → d' !! k = d !! k) ∧
    (∀ l, l ≠ settings → store' !! l = store !! l) ∧
    ellie_connect settings store' = Ok (store', Some settings) ∧
    models_url (current_settings (Some settings) store') =
      (organization <- getitem d "organization" ;;
       token <- getitem d "token" ;;
       Ok (models_endpoint organization
             (default "v1" (d !! "api_version")) token)).
Proof.
  intros Hd. rewrite (ellie_connect_ok settings store d Hd).
  set (d' := <["api_version" := default "v1" (d !! "api_version")]> d).
  exists (<[settings := d']> store), d'.
  assert (d' !! "api_version" = Some (default "v1" (d !! "api_version")))
    as Hv by apply lookup_insert_eq.
  split_and!.
  - done.
  - apply lookup_insert_eq.
  - done.
  - intros k Hk. unfold d'. by rewrite lookup_insert_ne.
  - intros l Hl. by rewrite lookup_insert_ne.
  - rewrite (ellie_connect_ok settings _ d') by apply lookup_insert_eq.
    rewrite Hv. simpl. by rewrite (insert_id d'), insert_insert_eq.
  - unfold current_settings. simpl. rewrite lookup_insert_eq.
    rewrite models_url_Some. unfold getitem. rewrite Hv.
    unfold d'. rewrite !lookup_insert_ne by done.
    by destruct (d !! "organization"), (d !! "token").
Qed.

Lemma ellie_connect_completes_settings_witness :
  ∃ store',
    ellie_connect 1%positive (settings_of application_state)
      = Ok (store', Some 1%positive) ∧
    models_url (current_settings (Some 1%positive) store') =
      Ok "example.ellie.ai/api/v1/models?token=secret".
Proof.
  destruct (ellie_connect_completes_settings 1%positive
              (settings_of application_state) application_settings)
    as (store' & d' & Hconnect & _ & _ & _ & _ & _ & Hurl).
  - reflexivity.
  - exists store'. split; [exact Hconnect|]. rewrite Hurl. reflexivity.
Defined.

(** * The organization URL *)

Lemma startswith_app lit s : startswith (lit +:+ s) lit = true.
Proof.
  induction lit as [|c lit IH]; [by destruct s|].
  rewrite append_cons. simpl. by rewrite bool_decide_eq_true_2.
Qed.

(** X18: the scheme is added at most once. After [ensure_scheme] an
    organization needs no scheme any more, so that applying it again
    changes nothing, and an organization that is not empty starts with
    "http://" or "https://"; the empty organization stays empty. *)
Theorem ensure_scheme_idempotent (organization : string) :
  needs_scheme (ensure_scheme organization) = false ∧
  ensure_scheme (ensure_scheme organization) = ensure_scheme organization ∧
  (organization ≠ EmptyString →
   startswith (ensure_scheme organization) "http://"
   || startswith (ensure_scheme organization) "https://" = true) ∧
  (organization = EmptyString → ensure_scheme organization = EmptyString).
Proof.
  assert (needs_scheme (ensure_scheme organization) = false) as Hdone.
  { unfold ensure_scheme.
    destruct (needs_scheme organization) eqn:Hn; [|done].
    unfold needs_scheme.
    rewrite (startswith_app "https://" organization).
    by rewrite orb_true_r, andb_false_r. }
  split_and!.
  - done.
  - unfold ensure_scheme at 1. by rewrite Hdone.
  - intros Hne. unfold ensure_scheme.
    destruct (needs_scheme organization) eqn:Hn.
    + rewrite (startswith_app "https://" organization). apply orb_true_r.
    + unfold needs_scheme in Hn.
      rewrite bool_decide_eq_false_2 in Hn by done. simpl in Hn.
      by apply negb_false_iff in Hn.
  - by intros ->.
Qed.

Lemma ensure_scheme_idempotent_witness :
  ensure_scheme "example.ellie.ai" = "https://example.ellie.ai" ∧
  startswith (ensure_scheme "example.ellie.ai") "http://"
  || startswith (ensure_scheme "example.ellie.ai") "https://" = true.
Proof.
  split; [reflexivity|].
  destruct (ensure_scheme_idempotent "example.ellie.ai")
    as (_ & _ & Hscheme & _).
  apply Hscheme. discriminate.
Defined.

(** * The transfer *)

Lemma store_model_empty doc :
  store_model doc ∅ =
  (2%positive,
   <[2%positive := <["model" := PRef 1%positive]> ∅]>
     (<[1%positive := dict_of_model doc]> ∅)).
Proof.
  unfold store_model, alloc.
  assert (fresh (dom (∅ : heap)) = 1%positive) as ->
    by (rewrite dom_empty_L; vm_compute; reflexivity).
  assert (fresh (dom (<[1%positive := dict_of_model doc]> (∅ : heap)))
          = 2%positive) as ->; [|done].
  rewrite dom_insert_L, dom_empty_L, union_empty_r_L. vm_compute. reflexivity.
Qed.

Lemma ellie_model_import_ok ellie_settings post name level model l h
    outer inner :
  h !! model = Some outer → outer !! "model" = Some (PRef l) →
  h !! l = Some inner →
  ellie_model_import ellie_settings post name model level h =
  (<[l := <["level" := PStr level]> (<["name" := PStr name]> inner)]> h,
   url <- models_url ellie_settings ;;
   post url model
     (<[l := <["level" := PStr level]> (<["name" := PStr name]> inner)]> h)).
Proof.
  intros Hm Ho Hi. unfold ellie_model_import.
  rewrite (setitem2_ok h model "model" "name" _ outer l inner) by done.
  set (h1 := <[l := <["name" := PStr name]> inner]> h).
  assert (∃ outer1, h1 !! model = Some outer1 ∧
                    outer1 !! "model" = Some (PRef l)) as (outer1 & Hm1 & Ho1).
  { unfold h1. destruct (decide (l = model)) as [->|Hne].
    - rewrite lookup_insert_eq. eexists. split; [done|].
      rewrite lookup_insert_ne by done. congruence.
    - rewrite lookup_insert_ne by done. by exists outer. }
  rewrite (setitem2_ok h1 model "model" "level" _ outer1 l
             (<["name" := PStr name]> inner))
    by (try done; unfold h1; by rewrite lookup_insert_eq).
  unfold h1. by rewrite insert_insert_eq.
Qed.

Lemma count_of_entities h data outer l inner es :
  h !! data = Some outer → outer !! "model" = Some (PRef l) →
  h !! l = Some inner → inner !! "entities" = Some (PEntities es) →
  count_of h data "entities" = Ok (length es).
Proof. intros Hd Ho Hl He. unfold count_of. by rewrite Hd, Ho, Hl, He. Qed.

Lemma count_of_relationships h data outer l inner rs :
  h !! data = Some outer → outer !! "model" = Some (PRef l) →
  h !! l = Some inner → inner !! "relationships" = Some (PRelationships rs) →
  count_of h data "relationships" = Ok (length rs).
Proof. intros Hd Ho Hl Hr. unfold count_of. by rewrite Hd, Ho, Hl, Hr. Qed.

(** X19: what a transfer sends. With a folder identifier that [int]
    accepts, an export that returns a document, and settings that give a
    URL, the document posted is the exported one with the three fields
    [folderId] (the integer), [name] and [level] added, the level being
    "physical" in place of the "conceptual" of the export; its entities and
    relationships are those of the export, and the status code of the
    answer alone decides between success and rejection. *)
Theorem transfer_posts_physical_document
    (int : string -> option Z) (conn : connection) (uuid4 : nat -> string)
    (post : string -> loc -> heap -> result response)
    (ellie_config : loc) (selected_schema model_name folder_id : string)
    (include_views : bool) (es es1 : ellie_state)
    (folder_id_int : Z) (doc : model) (url : string) :
  folder_id ≠ EmptyString →
  int folder_id = Some folder_id_int →
  reconnect_with_scheme ellie_config es = (es1, Ok tt) →
  snowflake_export conn uuid4 [selected_schema] include_views = Ok doc →
  models_url (current_settings (ellie_settings_ref es1) (settings_of es1))
    = Ok url →
  ∃ data inner h,
    h !! data = Some (<["model" := PRef inner]> ∅) ∧
    h !! inner = Some (posted_document doc model_name folder_id_int) ∧
    posted_document doc model_name folder_id_int !! "entities"
      = Some (PEntities (entities doc)) ∧
    posted_document doc model_name folder_id_int !! "relationships"
      = Some (PRelationships (relationships doc)) ∧
    transfer int conn uuid4 post ellie_config selected_schema model_name
      folder_id include_views es =
    (es1,
     outcome_of (length (entities doc)) (length (relationships doc))
       (post url data h)).
Proof.
  intros Hne Hint Hre Hdoc Hurl.
  set (h0 := <[2%positive := <["model" := PRef 1%positive]> ∅]>
               (<[1%positive := dict_of_model doc]> (∅ : heap))).
  set (h := <[1%positive := posted_document doc model_name folder_id_int]> h0).
  exists 2%positive, 1%positive, h.
  assert (h0 !! 2%positive = Some (<["model" := PRef 1%positive]> ∅)) as H2
    by apply lookup_insert_eq.
  assert (h0 !! 1%positive = Some (dict_of_model doc)) as H1
    by (unfold h0; by rewrite lookup_insert_ne, lookup_insert_eq).
  assert (h !! 2%positive = Some (<["model" := PRef 1%positive]> ∅)) as H2'
    by (unfold h; by rewrite lookup_insert_ne).
  assert (h !! 1%positive
          = Some (posted_document doc model_name folder_id_int)) as H1'
    by apply lookup_insert_eq.
  assert (posted_document doc model_name folder_id_int !! "entities"
          = Some (PEntities (entities doc))) as He
    by (unfold posted_document, dict_of_model; by simplify_map_eq).
  assert (posted_document doc model_name folder_id_int !! "relationships"
          = Some (PRelationships (relationships doc))) as Hr
    by (unfold posted_document, dict_of_model; by simplify_map_eq).
  split_and!; try done.
  unfold transfer. rewrite bool_decide_eq_false_2 by done. rewrite Hint.
  unfold transfer_block. rewrite Hre. cbn [rbind]. rewrite Hdoc.
  cbn [rbind]. rewrite store_model_empty. fold h0.
  rewrite (setitem2_ok h0 2%positive "model" "folderId" _
             (<["model" := PRef 1%positive]> ∅) 1%positive
             (dict_of_model doc)) by done.
  cbn [rbind].
  rewrite (ellie_model_import_ok _ post model_name "physical" 2%positive
             1%positive _ (<["model" := PRef 1%positive]> ∅)
             (<["folderId" := PInt folder_id_int]> (dict_of_model doc)));
    [|by rewrite lookup_insert_ne|done|apply lookup_insert_eq].
  rewrite insert_insert_eq. fold (posted_document doc model_name folder_id_int).
  fold h. rewrite Hurl. cbn [rbind]. f_equal.
  unfold outcome_of.
  destruct (post url 2%positive h) as [r|e]; cbn [rbind]; [|done].
  destruct (_ && _); [|done].
  rewrite (count_of_entities h _ _ _ _ _ H2' eq_refl H1' He).
  by rewrite (count_of_relationships h _ _ _ _ _ H2' eq_refl H1' Hr).
Qed.

Lemma transfer_posts_physical_document_witness :
  (transfer int_of shop numbered creating_api 1%positive "PUBLIC" "Shop" "42"
     true application_state).2 =
  ModelCreated 2 1
    {| status_code := 201;
       text := "https://example.ellie.ai/api/v1/models?token=secret" |}.
Proof.
  destruct (transfer_posts_physical_document int_of shop numbered
              creating_api 1%positive "PUBLIC" "Shop" "42" true
              application_state
              (reconnect_with_scheme 1%positive application_state).1
              42 shop_document
              "https://example.ellie.ai/api/v1/models?token=secret")
    as (data & inner & h & _ & _ & _ & _ & Htransfer).
  - discriminate.
  - reflexivity.
  - vm_compute. reflexivity.
  - vm_compute. reflexivity.
  - vm_compute. reflexivity.
  - rewrite Htransfer. reflexivity.
Defined.

(** X20: which settings a transfer uses. When the organization of the
    application's settings already has a scheme (or is empty), the transfer
    leaves the client as it was last connected. When it has none, the
    scheme "https://" is written into the application's settings, the
    client is connected to that very dictionary, and the import goes to the
    "https://" URL of that organization with the dictionary's token and its
    API version, "v1" by default; no other dictionary changes. *)
Theorem reconnect_uses_application_settings
    (ellie_config : loc) (es : ellie_state) (config : gmap string string)
    (organization : string) :
  settings_of es !! ellie_config = Some config →
  config !! "organization" = Some organization →
  (needs_scheme organization = false →
   reconnect_with_scheme ellie_config es = (es, Ok tt)) ∧
  (needs_scheme organization = true →
   ∃ es1,
     reconnect_with_scheme ellie_config es = (es1, Ok tt) ∧
     ellie_settings_ref es1 = Some ellie_config ∧
     (∀ l, l ≠ ellie_config → settings_of es1 !! l = settings_of es !! l) ∧
     models_url
       (current_settings (ellie_settings_ref es1) (settings_of es1)) =
     (token <- getitem config "token" ;;
      Ok (models_endpoint ("https://" +:+ organization)
            (default "v1" (config !! "api_version")) token))).
Proof.
  intros Hconfig Horg. unfold reconnect_with_scheme, getitem.
  rewrite Hconfig, Horg. split; intros ->; [done|].
  set (config1 := <["organization" := "https://" +:+ organization]> config).
  rewrite (ellie_connect_ok ellie_config _ config1)
    by apply lookup_insert_eq.
  eexists. split; [done|]. simpl. split_and!.
  - done.
  - intros l Hl. by rewrite !lookup_insert_ne.
  - unfold current_settings. simpl. rewrite lookup_insert_eq.
    rewrite models_url_Some. unfold getitem, config1.
    rewrite lookup_insert_ne by done. rewrite lookup_insert_eq. simpl.
    rewrite lookup_insert_eq. simpl.
    rewrite !lookup_insert_ne by done.
    by destruct (config !! "token").
Qed.

Lemma reconnect_uses_application_settings_witness :
  ∃ es1,
    reconnect_with_scheme 1%positive application_state = (es1, Ok tt) ∧
    ellie_settings_ref es1 = Some 1%positive ∧
    models_url (current_settings (ellie_settings_ref es1) (settings_of es1)) =
      Ok "https://example.ellie.ai/api/v1/models?token=secret".
Proof.
  destruct (reconnect_uses_application_settings 1%positive application_state
              application_settings "example.ellie.ai") as [_ H].
  - reflexivity.
  - reflexivity.
  - destruct H as (es1 & Hre & Hglobal & _ & Hurl); [reflexivity|].
    exists es1. split; [exact Hre|]. split; [exact Hglobal|].
    rewrite Hurl. reflexivity.
Defined.

(** * The SQL list of schemas *)

Lemma append_assoc (s1 s2 s3 : string) :
  (s1 +:+ s2) +:+ s3 = s1 +:+ s2 +:+ s3.
Proof.
  induction s1 as [|c s1 IH]; [done|].
  by rewrite !append_cons, IH.
Qed.

Lemma join_app sep (l1 l2 : list string) :
  l1 ≠ [] → l2 ≠ [] →
  join sep (l1 ++ l2) = join sep l1 +:+ sep +:+ join sep l2.
Proof.
  intros H1 H2. induction l1 as [|x l1 IH]; [done|].
  destruct l1 as [|y l1].
  - simpl. by destruct l2.
  - change (join sep ((x :: y :: l1) ++ l2))
      with (x +:+ sep +:+ join sep ((y :: l1) ++ l2)).
    rewrite IH by done.
    change (join sep (x :: y :: l1)) with (x +:+ sep +:+ join sep (y :: l1)).
    by rewrite !append_assoc.
Qed.

(** X21: [_join_schemas] quotes each name as it is and separates the
    names by a comma and a space: the list of no schema is the empty
    string, and the list of two non-empty lists of schemas is the two lists
    joined by ", ". No character of a name is escaped. *)
Theorem join_schemas_app (schemas1 schemas2 : list string) :
  schemas1 ≠ [] → schemas2 ≠ [] →
  _join_schemas [] = EmptyString ∧
  (∀ k, _join_schemas [k] = "'" +:+ k +:+ "'") ∧
  _join_schemas (schemas1 ++ schemas2) =
  _join_schemas schemas1 +:+ ", " +:+ _join_schemas schemas2.
Proof.
  intros H1 H2. split; [done|]. split; [done|].
  unfold _join_schemas. rewrite map_app. apply join_app.
  - by destruct schemas1.
  - by destruct schemas2.
Qed.

Lemma join_schemas_app_witness :
  _join_schemas (["PUBLIC"] ++ ["SALES"; "O'BRIEN"]) =
  "'PUBLIC', 'SALES', 'O'BRIEN'".
Proof.
  destruct (join_schemas_app ["PUBLIC"] ["SALES"; "O'BRIEN"])
    as (_ & _ & Happ); [discriminate..|].
  rewrite Happ. reflexivity.
Defined.

(** * Failures of the export and of the import *)

Lemma rmapM_missing_key (rows : list dict_row) (key : string) :
  (∃ row, row ∈ rows ∧ row !! key = None) →
  rmapM (fun row => getitem row key) rows = Raise (KeyError key).
Proof.
  intros (row & Hin & Hrow). induction rows as [|r rows IH].
  - by apply elem_of_nil in Hin.
  - simpl. unfold getitem at 1.
    destruct (r !! key) as [v|] eqn:Hr; [|done]. simpl.
    apply elem_of_cons in Hin as [->|Hin]; [congruence|].
    by rewrite IH.
Qed.

(** C7: a table that only [SHOW TABLES] lists gets no entity, and the
    export fails. When the standard listing of the first schema is empty
    and [SHOW TABLES] answers with a row without the key [TABLE_NAME] (its
    rows are keyed [name] and [kind]) that the listing keeps, the row is
    part of the listing returned by [_get_tables_and_views], and
    [snowflake_export] raises [KeyError('TABLE_NAME')] at the extraction of
    the table names, whatever the column catalog shows for that table: no
    document and so no entity is produced. *)
Theorem show_tables_listing_fails_export
    (conn : connection) (uuid4 : nat -> string) (schema : string)
    (schemas : list string) (include_views : bool)
    (all_tables : list dict_row) (row : dict_row) :
  cursor conn = Ok tt →
  execute conn (SelectTables schema include_views) = Ok [] →
  execute conn (ShowTables schema) = Ok all_tables →
  row ∈ all_tables →
  row !! "TABLE_NAME" = None →
  (include_views = false → is_base_table row = true) →
  (∃ listing,
     _get_tables_and_views conn schema include_views = Ok listing ∧
     row ∈ listing) ∧
  snowflake_export conn uuid4 (schema :: schemas) include_views =
  Raise (KeyError "TABLE_NAME").
Proof.
  intros Hcursor Hselect Hshow Hin Hrow Hkind.
  assert (∃ listing,
            _get_tables_and_views conn schema include_views = Ok listing ∧
            row ∈ listing) as (listing & Hlisting & Hlisted).
  { unfold _get_tables_and_views. rewrite Hcursor. cbn [rbind].
    rewrite Hselect, Hshow. destruct include_views.
    - by exists all_tables.
    - exists (List.filter is_base_table all_tables). split; [done|].
      apply list_elem_of_In, filter_In. split.
      + by apply list_elem_of_In.
      + by apply Hkind. }
  split; [by exists listing|].
  unfold snowflake_export. simpl. rewrite Hlisting. simpl.
  destruct listing as [|row0 listing]; [by apply elem_of_nil in Hlisted|].
  unfold export_schema. rewrite rmapM_missing_key; [done|].
  by exists row.
Qed.

(** On [shop_listed_by_show_tables] the table [ORDERS] is listed and the
    column catalog shows a column of it, and the export raises. *)
Lemma show_tables_listing_fails_export_witness :
  (∃ listing,
     _get_tables_and_views shop_listed_by_show_tables "PUBLIC" true
       = Ok listing ∧
     <["name" := "ORDERS"]> {[ "kind" := "TABLE" ]} ∈ listing) ∧
  has_column shop_listed_by_show_tables "PUBLIC" "ORDERS" ∧
  snowflake_export shop_listed_by_show_tables numbered ["PUBLIC"] true =
  Raise (KeyError "TABLE_NAME").
Proof.
  destruct (show_tables_listing_fails_export shop_listed_by_show_tables
              numbered "PUBLIC" [] true
              [ <["name" := "ORDERS"]> {[ "kind" := "TABLE" ]};
                <["name" := "CUSTOMERS"]> {[ "kind" := "TABLE" ]} ]
              (<["name" := "ORDERS"]> {[ "kind" := "TABLE" ]}))
    as [Hlisted Hraise].
  - reflexivity.
  - reflexivity.
  - reflexivity.
  - apply list_elem_of_In. left. reflexivity.
  - reflexivity.
  - intros H. discriminate H.
  - split; [exact Hlisted|]. split; [|exact Hraise].
    eexists. split.
    + apply list_elem_of_In. vm_compute. right. left. reflexivity.
    + reflexivity.
Defined.

(** X22: the export needs the key [TABLE_NAME] in every row of a listing.
    When a row of the listing of the first schema lacks it, as a row with
    only the keys [name] and [kind] does, the export raises
    [KeyError('TABLE_NAME')] and returns no document. *)
Theorem listing_without_table_name_fails
    (conn : connection) (uuid4 : nat -> string) (schema : string)
    (schemas : list string) (include_views : bool) (rows : list dict_row) :
  _get_tables_and_views conn schema include_views = Ok rows →
  (∃ row, row ∈ rows ∧ row !! "TABLE_NAME" = None) →
  snowflake_export conn uuid4 (schema :: schemas) include_views =
  Raise (KeyError "TABLE_NAME").
Proof.
  intros Hrows Hmissing. unfold snowflake_export. simpl. rewrite Hrows.
  simpl. destruct rows as [|row0 rows].
  { destruct Hmissing as (row & Hin & _). by apply elem_of_nil in Hin. }
  unfold export_schema. by rewrite rmapM_missing_key.
Qed.

Lemma listing_without_table_name_fails_witness :
  snowflake_export listed_by_show_tables numbered ["PUBLIC"] true =
  Raise (KeyError "TABLE_NAME").
Proof.
  apply (listing_without_table_name_fails listed_by_show_tables numbered
           "PUBLIC" [] true
           [ <["name" := "ORDERS"]> {[ "kind" := "Table" ]};
             <["name" := "ORDER_TOTALS"]> {[ "kind" := "VIEW" ]} ]).
  - reflexivity.
  - eexists. split; [apply list_elem_of_In; left; reflexivity|reflexivity].
Defined.

(** X23: how an import fails. A document without the key "model" raises
    [KeyError('model')] and is left as it is. Otherwise the name and the
    level are written first: when the URL cannot be built afterwards (no
    client connected, or a setting missing), the exception is raised with
    the document already renamed, and nothing is posted, whatever the API
    would answer. *)
Theorem import_failure_modes
    (ellie_settings : option (gmap string string))
    (post post' : string -> loc -> heap -> result response)
    (name level : string) (model : loc) (h : heap) (outer : pydict) :
  h !! model = Some outer →
  (outer !! "model" = None →
   ellie_model_import ellie_settings post name model level h =
     (h, Raise (KeyError "model"))) ∧
  (∀ inner_loc inner e,
     outer !! "model" = Some (PRef inner_loc) →
     h !! inner_loc = Some inner →
     models_url ellie_settings = Raise e →
     ellie_model_import ellie_settings post name model level h =
       (<[inner_loc :=
            <["level" := PStr level]> (<["name" := PStr name]> inner)]> h,
        Raise e) ∧
     ellie_model_import ellie_settings post' name model level h =
     ellie_model_import ellie_settings post name model level h).
Proof.
  intros Hm. split.
  - intros Ho. unfold ellie_model_import, setitem2. by rewrite Hm, Ho.
  - intros inner_loc inner e Ho Hi Hurl.
    rewrite !(ellie_model_import_ok ellie_settings _ name level model
                inner_loc h outer inner) by done.
    by rewrite Hurl.
Qed.

Lemma import_failure_modes_witness :
  ∃ h' inner',
    ellie_model_import None accepting_api "Shop" shop_store.1 "physical"
      shop_store.2 = (h', Raise TypeError) ∧
    h' !! 1%positive = Some inner' ∧
    inner' !! "name" = Some (PStr "Shop").
Proof.
  destruct (import_failure_modes None accepting_api accepting_api "Shop"
              "physical" shop_store.1 shop_store.2
              (<["model" := PRef 1%positive]> ∅)) as [_ H].
  - vm_compute. reflexivity.
  - destruct (H 1%positive
                (<["folderId" := PInt 42]> (dict_of_model shop_document))
                TypeError) as [Himport _].
    + reflexivity.
    + vm_compute. reflexivity.
    + reflexivity.
    + eexists _, _. split; [exact Himport|].
      split; [apply lookup_insert_eq|].
      rewrite lookup_insert_ne by discriminate. apply lookup_insert_eq.
Defined.
